(** * Multi-axis tomography: rotation geometry, angle schemes, component weights
      and the iterative vector-potential reconstruction loop.

    Shallow embedding of [multi_axis.py].  Exact-arithmetic statements are made
    over the real numbers; the behaviour of the unguarded reciprocal at a zero
    weight is a statement about IEEE binary64 values and is made over the
    kernel's primitive floats.  NumPy arrays are modelled with their shape. *)

From Stdlib Require Import String.
From Stdlib Require Import Reals Lra Lia ZArith Bool RNsatz List Sorted.
From Stdlib Require Import Floats.
Import ListNotations.

Open Scope R_scope.

(** ** Python exceptions and fallible results *)

Inductive py_error : Type :=
| TypeError
| ValueError
| IndexError
| ZeroDivisionError.

Inductive result (A : Type) : Type :=
| Ok (a : A)
| Err (e : py_error).

Arguments Ok {A} a.
Arguments Err {A} e.

Definition bind {A B : Type} (m : result A) (k : A -> result B) : result B :=
  match m with
  | Ok a => k a
  | Err e => Err e
  end.

Notation "x <- m ;; k" := (bind m (fun x => k))
  (at level 61, m at next level, right associativity).

(** ** Rotation Engine *)

Module Geometry.

(** [np.dot] of two 1-D arrays. *)
Definition dot1 (u v : list R) : R :=
  fold_right Rplus 0 (map (fun p => fst p * snd p) (combine u v)).

(** Column [j] of a matrix stored as a list of rows. *)
Definition column (j : nat) (m : list (list R)) : list R :=
  map (fun row => nth j row 0) m.

(** [a.dot(b)] for two 2-D arrays. *)
Definition mdot (a b : list (list R)) : list (list R) :=
  map (fun row => map (fun j => dot1 row (column j b))
                      (seq 0 (length (hd [] b)))) a.

(** [m.dot(v)] for a 2-D array and a 1-D array. *)
Definition mdotv (m : list (list R)) (v : list R) : list R :=
  map (fun row => dot1 row v) m.

(** Degrees to radians, as the source writes it: [a * np.pi/180]. *)
Definition radians (a : R) : R := a * PI / 180.

Definition rotation_matrix (ax ay az : R) (intrinsic : bool) : list (list R) :=
  let ax := radians ax in
  let Cx := cos ax in
  let Sx := sin ax in
  let mrotx := [[1; 0; 0]; [0; Cx; - Sx]; [0; Sx; Cx]] in
  let ay := radians ay in
  let Cy := cos ay in
  let Sy := sin ay in
  let mroty := [[Cy; 0; Sy]; [0; 1; 0]; [- Sy; 0; Cy]] in
  let az := radians az in
  let Cz := cos az in
  let Sz := sin az in
  let mrotz := [[Cz; - Sz; 0]; [Sz; Cz; 0]; [0; 0; 1]] in
  if intrinsic
  then mdot (mdot mrotz mroty) mrotx
  else mdot (mdot mrotx mroty) mrotz.

(** ** Projection Geometry Builder *)

Definition get_astravec (ax ay az : R) : list R :=
  let ay := - ay in
  let d := [0; 0; 0] in
  let mrot := rotation_matrix ax ay az false in
  let r := map (fun x => x * -1) (mdotv mrot [0; 0; 1]) in
  let u := mdotv mrot [1; 0; 0] in
  let v := mdotv mrot [0; 1; 0] in
  r ++ d ++ u ++ v.

Definition generate_vectors (angles : list (R * R * R)) : list (list R) :=
  map (fun a => match a with (ax, ay, az) => get_astravec ax ay az end) angles.

(** ** Weight Calculator *)

Definition calculate_A_contributions (angles : list (R * R * R))
  : list (R * R * R) :=
  map (fun a =>
         match a with
         | (a0, a1, a2) =>
           let mrot := rotation_matrix a0 a1 a2 true in
           let nx := mdotv mrot [1; 0; 0] in
           let ny := mdotv mrot [0; 1; 0] in
           let nz := mdotv mrot [0; 0; 1] in
           let nx := dot1 nx [0; 0; 1] in
           let ny := dot1 ny [0; 0; 1] in
           let nz := dot1 nz [0; 0; 1] in
           (nx, ny, nz)
         end) angles.

(** *** Specification-side objects *)

(** A 3x3 matrix as an indexed family, and the textbook product. *)
Definition M3 : Type := nat -> nat -> R.

Definition M3mul (a b : M3) : M3 :=
  fun i j => a i 0%nat * b 0%nat j + a i 1%nat * b 1%nat j + a i 2%nat * b 2%nat j.

Definition M3app (a : M3) (v : nat -> R) : nat -> R :=
  fun i => a i 0%nat * v 0%nat + a i 1%nat * v 1%nat + a i 2%nat * v 2%nat.

Definition pick3 (x y z : R) : nat -> R :=
  fun i => match i with 0%nat => x | 1%nat => y | _ => z end.

Definition rows3 (r0 r1 r2 : nat -> R) : M3 :=
  fun i => match i with 0%nat => r0 | 1%nat => r1 | _ => r2 end.

(** Elementary rotations about x, y and z by an angle given in degrees. *)
Definition Rx (a : R) : M3 :=
  let t := a * PI / 180 in
  rows3 (pick3 1 0 0) (pick3 0 (cos t) (- sin t)) (pick3 0 (sin t) (cos t)).

Definition Ry (a : R) : M3 :=
  let t := a * PI / 180 in
  rows3 (pick3 (cos t) 0 (sin t)) (pick3 0 1 0) (pick3 (- sin t) 0 (cos t)).

Definition Rz (a : R) : M3 :=
  let t := a * PI / 180 in
  rows3 (pick3 (cos t) (- sin t) 0) (pick3 (sin t) (cos t) 0) (pick3 0 0 1).

Definition intrinsic_matrix (ax ay az : R) : M3 :=
  M3mul (M3mul (Rz az) (Ry ay)) (Rx ax).

Definition extrinsic_matrix (ax ay az : R) : M3 :=
  M3mul (M3mul (Rx ax) (Ry ay)) (Rz az).

Definition list3 (v : nat -> R) : list R := [v 0%nat; v 1%nat; v 2%nat].

(** The spec's [buildProjectionVector]: negate [ay], take the extrinsic
    matrix, and read off ray, detector centre and detector basis. *)
Definition buildProjectionVector_spec (ax ay az : R) : list R :=
  let m := extrinsic_matrix ax (- ay) az in
  list3 (fun i => M3app m (pick3 0 0 1) i * -1)
    ++ [0; 0; 0]
    ++ list3 (M3app m (pick3 1 0 0))
    ++ list3 (M3app m (pick3 0 1 0)).

(** Slices of the 12-component projection vector. *)
Definition ray_of (p : list R) : list R := firstn 3 p.
Definition det_u_of (p : list R) : list R := firstn 3 (skipn 6 p).
Definition det_v_of (p : list R) : list R := firstn 3 (skipn 9 p).

Definition sumsq (w : R * R * R) : R :=
  match w with (wx, wy, wz) => wx * wx + wy * wy + wz * wz end.

End Geometry.

(** ** NumPy arrays with their shape, over an abstract scalar type *)

(** The scalar operations the array code uses.  Two readings are given below:
    exact real arithmetic, and IEEE binary64. *)
Class Scalar (T : Type) : Type := {
  sc_zero : T;
  sc_one : T;
  sc_two : T;
  sc_pi : T;
  sc_opp : T -> T;
  sc_add : T -> T -> T;
  sc_sub : T -> T -> T;
  sc_mul : T -> T -> T;
  sc_div : T -> T -> T;
  sc_abs : T -> T;
  sc_gtb : T -> T -> bool
}.

#[export] Instance Scalar_R : Scalar R := {
  sc_zero := 0;
  sc_one := 1;
  sc_two := 2;
  sc_pi := PI;
  sc_opp := Ropp;
  sc_add := Rplus;
  sc_sub := Rminus;
  sc_mul := Rmult;
  sc_div := Rdiv;
  sc_abs := Rabs;
  sc_gtb := fun a b => if Rlt_dec b a then true else false
}.

(** [np.pi] is the binary64 number nearest to pi. *)
Definition float_pi : float := 0x1.921fb54442d18p+1%float.

#[export] Instance Scalar_float : Scalar float := {
  sc_zero := 0%float;
  sc_one := 1%float;
  sc_two := 2%float;
  sc_pi := float_pi;
  sc_opp := PrimFloat.opp;
  sc_add := PrimFloat.add;
  sc_sub := PrimFloat.sub;
  sc_mul := PrimFloat.mul;
  sc_div := PrimFloat.div;
  sc_abs := PrimFloat.abs;
  sc_gtb := fun a b => PrimFloat.ltb b a
}.

Module Arrays.
Section WithScalar.

Context {T : Type} `{Scalar T}.

(** A 3-D array: its shape and its entries. Entries outside the shape are
    never read by the operations below. *)
Record array3 : Type := mk_array3 {
  dim0 : nat;
  dim1 : nat;
  dim2 : nat;
  get3 : nat -> nat -> nat -> T
}.

(** A 2-D array, as obtained from [a[:, i, :]]. *)
Record array2 : Type := mk_array2 {
  rows2 : nat;
  cols2 : nat;
  get2 : nat -> nat -> T
}.

(** Two arrays are the same array when shapes and in-range entries agree. *)
Definition array3_eq (a b : array3) : Prop :=
  dim0 a = dim0 b /\ dim1 a = dim1 b /\ dim2 a = dim2 b /\
  forall i j k, (i < dim0 a)%nat -> (j < dim1 a)%nat -> (k < dim2 a)%nat ->
                get3 a i j k = get3 b i j k.

(** Component [k] of a weight triple. *)
Definition weight_k (k : nat) (w : T * T * T) : T :=
  match w with
  | (wx, wy, wz) => match k with 0%nat => wx | 1%nat => wy | _ => wz end
  end.

(** Component [k] of the weight triple of angle [t]. *)
Definition nth_weight (k t : nat) (ws : list (T * T * T)) : T :=
  weight_k k (nth t ws (sc_zero, sc_zero, sc_zero)).

Definition same_shape (a b : array3) : Prop :=
  dim0 a = dim0 b /\ dim1 a = dim1 b /\ dim2 a = dim2 b.

Definition map3 (f : T -> T) (a : array3) : array3 :=
  mk_array3 (dim0 a) (dim1 a) (dim2 a) (fun i j k => f (get3 a i j k)).

Definition zeros_like (a : array3) : array3 :=
  mk_array3 (dim0 a) (dim1 a) (dim2 a) (fun _ _ _ => sc_zero).

(** NumPy broadcasting of one axis: equal extents, or one of them is 1. *)
Definition bdim (a b : nat) : result nat :=
  if (a =? b)%nat then Ok a
  else if (a =? 1)%nat then Ok b
  else if (b =? 1)%nat then Ok a
  else Err ValueError.

Definition bidx (d i : nat) : nat := if (d =? 1)%nat then 0%nat else i.

(** [a - b] on two 3-D arrays. *)
Definition sub3 (a b : array3) : result array3 :=
  d0 <- bdim (dim0 a) (dim0 b) ;;
  d1 <- bdim (dim1 a) (dim1 b) ;;
  d2 <- bdim (dim2 a) (dim2 b) ;;
  Ok (mk_array3 d0 d1 d2
        (fun i j k =>
           sc_sub (get3 a (bidx (dim0 a) i) (bidx (dim1 a) j) (bidx (dim2 a) k))
                  (get3 b (bidx (dim0 b) i) (bidx (dim1 b) j) (bidx (dim2 b) k)))).

(** [projs[:, i, :]] *)
Definition slice_tilt (projs : array3) (i : nat) : result array2 :=
  if (i <? dim1 projs)%nat
  then Ok (mk_array2 (dim0 projs) (dim2 projs) (fun r c => get3 projs r i c))
  else Err IndexError.

Definition scale2 (p : array2) (w : T) : array2 :=
  mk_array2 (rows2 p) (cols2 p) (fun r c => sc_mul (get2 p r c) w).

(** [np.transpose(ps, axes=[1,0,2])] of a list of equally shaped 2-D arrays.
    An empty list is a 1-D array, which has no three axes to permute. *)
Definition transpose_102 (ps : list array2) : result array3 :=
  match ps with
  | [] => Err ValueError
  | p0 :: _ =>
    Ok (mk_array3 (rows2 p0) (length ps) (cols2 p0)
          (fun r t c => get2 (nth t ps p0) r c))
  end.

(** The [for i,w in enumerate(ws)] loop of [weight_phases], from index [i]. *)
Fixpoint weight_loop (projs : array3) (i : nat) (ws : list T)
  : result (list array2) :=
  match ws with
  | [] => Ok []
  | w :: ws' =>
    p <- slice_tilt projs i ;;
    rest <- weight_loop projs (S i) ws' ;;
    Ok (scale2 p w :: rest)
  end.

Definition weight_phases (projs : array3) (ws : list T) : result array3 :=
  new_ps <- weight_loop projs 0 ws ;;
  transpose_102 new_ps.

(** [ws[:, k]] on the array built from a list of weight triples; with no
    triple the array is 1-D and the index is rejected. *)
Definition ws_column (k : nat) (ws : list (T * T * T)) : result (list T) :=
  match ws with
  | [] => Err IndexError
  | _ => Ok (map (weight_k k) ws)
  end.

(** [1/ws[:,k]] *)
Definition reciprocals (ws : list T) : list T := map (fun w => sc_div sc_one w) ws.

Section Decontamination.

(** The magnetic flux quantum, [constants.codata.value('mag. flux quantum')]. *)
Variable flux_quantum : T.

Definition phase_const : T :=
  sc_div (sc_div (sc_opp sc_pi) flux_quantum) (sc_mul sc_two sc_pi).

(** [phase_projs*1/const - weight_phases(a, ws[:,ka]) - weight_phases(b, ws[:,kb])],
    then reweighted by [1/ws[:,kt]]. *)
Definition decontaminate (phase_projs a b : array3) (ka kb kt : nat)
           (ws : list (T * T * T)) : result array3 :=
  let scaled := map3 (fun x => sc_div (sc_mul x sc_one) phase_const) phase_projs in
  wa <- ws_column ka ws ;;
  pa <- weight_phases a wa ;;
  d1 <- sub3 scaled pa ;;
  wb <- ws_column kb ws ;;
  pb <- weight_phases b wb ;;
  d2 <- sub3 d1 pb ;;
  wt <- ws_column kt ws ;;
  weight_phases d2 (reciprocals wt).

Definition update_weighted_proj_data
           (phase_projs a_weighted_x a_weighted_y a_weighted_z : array3)
           (ws : list (T * T * T)) : result (array3 * array3 * array3) :=
  new_x <- decontaminate phase_projs a_weighted_y a_weighted_z 1 2 0 ws ;;
  new_y <- decontaminate phase_projs a_weighted_x a_weighted_z 0 2 1 ws ;;
  new_z <- decontaminate phase_projs a_weighted_y a_weighted_x 1 0 2 ws ;;
  Ok (new_x, new_y, new_z).

(** The linear mixing model in the words of the spec:
    [phase = const * (wx*Ax + wy*Ay + wz*Az)] at every angle. *)
Definition mix_model (ws : list (T * T * T)) (Ax Ay Az : array3) : array3 :=
  mk_array3 (dim0 Ax) (length ws) (dim2 Ax)
    (fun i j k =>
       match nth j ws (sc_zero, sc_zero, sc_zero) with
       | (wx, wy, wz) =>
         sc_mul phase_const
           (sc_add (sc_add (sc_mul wx (get3 Ax i j k)) (sc_mul wy (get3 Ay i j k)))
                   (sc_mul wz (get3 Az i j k)))
       end).

End Decontamination.

(** The thresholding loop of [recon_step]: keeps, in order, the slices and
    angles whose absolute weight exceeds [thresh]. *)
Fixpoint threshold_loop {Ang : Type} (a_projs : array3) (angles : list Ang)
         (thresh : T) (i : nat) (ws : list T)
  : result (list array2 * list Ang) :=
  match ws with
  | [] => Ok ([], [])
  | w :: ws' =>
    if sc_gtb (sc_abs w) thresh
    then
      p <- slice_tilt a_projs i ;;
      a <- match nth_error angles i with
           | Some a => Ok a
           | None => Err IndexError
           end ;;
      rest <- threshold_loop a_projs angles thresh (S i) ws' ;;
      Ok (p :: fst rest, a :: snd rest)
    else threshold_loop a_projs angles thresh (S i) ws'
  end.

(** Indices kept by the thresholding loop. *)
Fixpoint kept_indices (thresh : T) (i : nat) (ws : list T) : list nat :=
  match ws with
  | [] => []
  | w :: ws' =>
    if sc_gtb (sc_abs w) thresh
    then i :: kept_indices thresh (S i) ws'
    else kept_indices thresh (S i) ws'
  end.

End WithScalar.

Arguments array3 T : clear implicits.
Arguments array2 T : clear implicits.

End Arrays.

(** ** Angle Scheme Generator *)

Module AngleScheme.

(** A Python number passed where NumPy expects a count. *)
Inductive pynum : Type :=
| PyInt (n : Z)
| PyFloat (x : R).

(** Modelled from NumPy's documentation: [np.linspace(start, stop, num)] with
    the default [endpoint=True].  [num] must be an integer (a float is rejected
    with [TypeError]) and must not be negative ([ValueError]); one sample is
    [start] alone; otherwise the samples are evenly spaced and the last one is
    [stop]. *)
Definition linspace (start stop : R) (num : pynum) : result (list R) :=
  match num with
  | PyFloat _ => Err TypeError
  | PyInt n =>
    if (n <? 0)%Z then Err ValueError
    else
      match Z.to_nat n with
      | O => Ok []
      | S O => Ok [start]
      | S (S m) =>
        let step := (stop - start) / INR (S m) in
        Ok (map (fun i => INR i * step + start) (seq 0 (S m)) ++ [stop])
      end
  end.

(** [int(n/d)]: Python's true division followed by truncation toward zero. *)
Definition int_div (n d : Z) : result Z :=
  if (d =? 0)%Z then Err ZeroDivisionError else Ok (Z.quot n d).

(** [n/d] left as a float. *)
Definition true_div (n d : Z) : result R :=
  if (d =? 0)%Z then Err ZeroDivisionError else Ok (IZR n / IZR d).

Definition angle : Type := (R * R * R)%type.

(** A block guarded by [if cond:]; when the guard fails nothing is appended. *)
Definition when (cond : bool) (body : result (list angle)) : result (list angle) :=
  if cond then body else Ok [].

(** The loop of mode [rand]: iteration [i] draws from [np.random.rand()];
    [k] counts the draws made so far. *)
Fixpoint rand_loop (draws : nat -> R) (alpha beta gamma : R) (tilt2 : string)
         (n : nat) (k : nat) : list angle :=
  match n with
  | O => []
  | S n' =>
    let ax_rand := draws k * alpha * 2 - alpha in
    if (tilt2 =? "beta")%string then
      let ay_rand := draws (S k) * beta * 2 - beta in
      (ax_rand, ay_rand, 0) :: rand_loop draws alpha beta gamma tilt2 n' (S (S k))
    else if (tilt2 =? "gamma")%string then
      let az_rand := draws (S k) * gamma * 2 - gamma in
      (ax_rand, 0, az_rand) :: rand_loop draws alpha beta gamma tilt2 n' (S (S k))
    else rand_loop draws alpha beta gamma tilt2 n' (S k)
  end.

Definition x_series (alpha : R) (num : pynum) (ay az : R) : result (list angle) :=
  xs <- linspace (- alpha) alpha num ;;
  Ok (map (fun ax => (ax, ay, az)) xs).

Definition y_series (beta : R) (num : pynum) (ax az : R) : result (list angle) :=
  ys <- linspace (- beta) beta num ;;
  Ok (map (fun ay => (ax, ay, az)) ys).

Definition capped_gamma (gamma : R) : R :=
  if Rle_dec 90 gamma then 90 else gamma.

Definition mode_x (n_tilt : Z) (alpha : R) : result (list angle) :=
  x_series alpha (PyInt n_tilt) 0 0.

Definition mode_y (n_tilt : Z) (alpha beta gamma : R) (tilt2 : string)
  : result (list angle) :=
  b <- when (tilt2 =? "beta")%string (y_series beta (PyInt n_tilt) 0 0) ;;
  g <- when (tilt2 =? "gamma")%string
         (x_series alpha (PyInt n_tilt) 0 (capped_gamma gamma)) ;;
  Ok (b ++ g).

Definition mode_dual (n_tilt : Z) (alpha beta gamma : R) (tilt2 : string)
  : result (list angle) :=
  h <- int_div n_tilt 2 ;;
  s0 <- x_series alpha (PyInt h) 0 0 ;;
  b <- when (tilt2 =? "beta")%string
         (h <- int_div n_tilt 2 ;; y_series beta (PyInt h) 0 0) ;;
  g <- when (tilt2 =? "gamma")%string
         (h <- int_div n_tilt 2 ;; x_series alpha (PyInt h) 0 (capped_gamma gamma)) ;;
  Ok (s0 ++ b ++ g).

Definition mode_quad (n_tilt : Z) (alpha beta gamma : R) (tilt2 : string)
  : result (list angle) :=
  b <- when (tilt2 =? "beta")%string
         (q <- int_div n_tilt 4 ;;
          s0 <- x_series alpha (PyInt q) 0 0 ;;
          s1 <- y_series beta (PyInt q) 0 0 ;;
          s2 <- x_series alpha (PyInt q) beta 0 ;;
          s3 <- x_series alpha (PyInt q) (- beta) 0 ;;
          Ok (s0 ++ s1 ++ s2 ++ s3)) ;;
  g <- when (tilt2 =? "gamma")%string
         (if Rle_dec 90 gamma then
            q <- int_div n_tilt 4 ;;
            s0 <- x_series alpha (PyInt q) 0 0 ;;
            s1 <- x_series alpha (PyInt q) 0 90 ;;
            s2 <- x_series alpha (PyInt q) 0 45 ;;
            s3 <- x_series alpha (PyInt q) 0 (- 45) ;;
            Ok (s0 ++ s1 ++ s2 ++ s3)
          else
            q <- true_div n_tilt 4 ;;
            s0 <- x_series alpha (PyFloat q) 0 gamma ;;
            s1 <- x_series alpha (PyFloat q) 0 (- gamma) ;;
            s2 <- x_series alpha (PyFloat q) 0 (gamma / 3) ;;
            s3 <- x_series alpha (PyFloat q) 0 (- gamma / 3) ;;
            Ok (s0 ++ s1 ++ s2 ++ s3)) ;;
  Ok (b ++ g).

Definition mode_rand (draws : nat -> R) (n_tilt : Z) (alpha beta gamma : R)
           (tilt2 : string) : result (list angle) :=
  Ok (rand_loop draws alpha beta gamma tilt2 (Z.to_nat n_tilt) 0).

Definition mode_sync (n_tilt : Z) (alpha beta gamma : R) (tilt2 : string)
  : result (list angle) :=
  b <- when (tilt2 =? "beta")%string
         (h <- int_div n_tilt 2 ;;
          ax <- linspace (- alpha) alpha (PyInt h) ;;
          ay <- linspace (- beta) beta (PyInt h) ;;
          Ok (map (fun p => (fst p, snd p, 0)) (combine ax ay)
              ++ map (fun p => (fst p, - snd p, 0)) (combine ax ay))) ;;
  g <- when (tilt2 =? "gamma")%string
         (h <- int_div n_tilt 2 ;;
          ax <- linspace (- alpha) alpha (PyInt h) ;;
          az <- linspace (- gamma) gamma (PyInt h) ;;
          Ok (map (fun p => (fst p, 0, snd p)) (combine ax az)
              ++ map (fun p => (fst p, 0, - snd p)) (combine ax az))) ;;
  Ok (b ++ g).

Definition mode_sx (n_tilt : Z) (alpha beta gamma : R) (tilt2 : string)
  : result (list angle) :=
  b <- when (tilt2 =? "beta")%string
         (ax <- linspace (- alpha) alpha (PyInt n_tilt) ;;
          ay <- linspace (- beta) beta (PyInt n_tilt) ;;
          Ok (map (fun p => (fst p, snd p, 0)) (combine ax ay))) ;;
  g <- when (tilt2 =? "gamma")%string
         (ax <- linspace (- alpha) alpha (PyInt n_tilt) ;;
          az <- linspace (- gamma) gamma (PyInt n_tilt) ;;
          Ok (map (fun p => (fst p, 0, snd p)) (combine ax az))) ;;
  Ok (b ++ g).

Definition mode_dist (n_tilt : Z) (alpha beta gamma : R) (dist_n2 : Z)
           (tilt2 : string) : result (list angle) :=
  m <- int_div n_tilt dist_n2 ;;
  ax <- linspace (- alpha) alpha (PyInt m) ;;
  ax <- (if Req_dec_T alpha 90
         then
           q <- true_div n_tilt dist_n2 ;;
           ax' <- linspace (- 90) 90 (PyFloat (q + 1)) ;;
           Ok (rev ax')
         else Ok ax) ;;
  b <- when (tilt2 =? "beta")%string
         (ay <- linspace (- beta) beta (PyInt dist_n2) ;;
          Ok (flat_map (fun x => map (fun y => (x, y, 0)) ay) ax)) ;;
  g <- when (tilt2 =? "gamma")%string
         (g1 <- when (if Rlt_dec gamma 90 then true else false)
                  (az <- linspace (- gamma) gamma (PyInt dist_n2) ;;
                   Ok (flat_map (fun x => map (fun z => (x, 0, z)) az) ax)) ;;
          g2 <- when (if Rle_dec 90 gamma then true else false)
                  (az <- linspace (- 90) 90 (PyInt (dist_n2 + 1)) ;;
                   Ok (flat_map (fun x => map (fun z => (x, 0, z)) (removelast az)) ax)) ;;
          Ok (g1 ++ g2)) ;;
  Ok (b ++ g).

(** The blocks of [generate_angles] run one after the other, each under its own
    [if mode == ...]; [angles] collects what they append. *)
Definition generate_angles (draws : nat -> R) (mode : string) (n_tilt : Z)
           (alpha beta gamma : R) (dist_n2 : Z) (tilt2 : string)
  : result (list angle) :=
  a1 <- when (mode =? "x")%string (mode_x n_tilt alpha) ;;
  a2 <- when (mode =? "y")%string (mode_y n_tilt alpha beta gamma tilt2) ;;
  a3 <- when (mode =? "dual")%string (mode_dual n_tilt alpha beta gamma tilt2) ;;
  a4 <- when (mode =? "quad")%string (mode_quad n_tilt alpha beta gamma tilt2) ;;
  a5 <- when (mode =? "rand")%string (mode_rand draws n_tilt alpha beta gamma tilt2) ;;
  a6 <- when (mode =? "sync")%string (mode_sync n_tilt alpha beta gamma tilt2) ;;
  a7 <- when (mode =? "sx")%string (mode_sx n_tilt alpha beta gamma tilt2) ;;
  a8 <- when (mode =? "dist")%string (mode_dist n_tilt alpha beta gamma dist_n2 tilt2) ;;
  Ok (a1 ++ a2 ++ a3 ++ a4 ++ a5 ++ a6 ++ a7 ++ a8).

Definition recognised_mode (mode : string) : bool :=
  existsb (String.eqb mode) ["x"; "y"; "dual"; "quad"; "rand"; "sync"; "sx"; "dist"]%string.

End AngleScheme.

(** ** Iterative Vector-Potential Reconstructor *)

Module Reconstructor.

Import Arrays.

Definition volume : Type := array3 R.
Definition stack : Type := array3 R.
Definition angle : Type := (R * R * R)%type.

(** [mesh_params = (p1, p2, n)]: bounding box corners and voxel counts. *)
Definition mesh_params : Type := ((R * R * R) * (R * R * R) * (R * R * R))%type.

(** Calls observed during a run: entries into [recon_step] with the threshold
    they were given, and the invocations of the Reconstruction Backend. *)
Inductive event : Type :=
| CallReconStep (ws : list R) (thresh : R)
| BackendReconstruct (raw_data : stack) (vectors : list (list R))
                     (algorithm : string) (niter : Z) (weight : R)
| BackendForwardProject (angles : list angle)
| BackendClear.

Definition is_backend (e : event) : bool :=
  match e with
  | CallReconStep _ _ => false
  | _ => true
  end.

Definition backend_calls (tr : list event) : list event := filter is_backend tr.

Definition step_threshold (e : event) : list R :=
  match e with
  | CallReconStep _ t => [t]
  | _ => []
  end.

(** Thresholds of the successive [recon_step] calls of a trace. *)
Definition thresholds_used (tr : list event) : list R := flat_map step_threshold tr.

(** Computations that may raise and that leave a trace of calls. *)
Definition M (A : Type) : Type := list event -> result A * list event.

Definition ret {A : Type} (a : A) : M A := fun tr => (Ok a, tr).

Definition bindM {A B : Type} (m : M A) (k : A -> M B) : M B :=
  fun tr =>
    match m tr with
    | (Ok a, tr') => k a tr'
    | (Err e, tr') => (Err e, tr')
    end.

Definition lift {A : Type} (r : result A) : M A := fun tr => (r, tr).

Definition emit (e : event) : M unit := fun tr => (Ok tt, tr ++ [e]).

Notation "x <~ m ;; k" := (bindM m (fun x => k))
  (at level 61, m at next level, right associativity).

(** [x/y] on Python numbers. *)
Definition py_div (x y : R) : result R :=
  if Req_dec_T y 0 then Err ZeroDivisionError else Ok (x / y).

(** [l[k]] with Python's negative indices. *)
Definition py_getitem (l : list R) (k : Z) : result R :=
  let n := Z.of_nat (length l) in
  let k' := if (k <? 0)%Z then (k + n)%Z else k in
  if ((0 <=? k') && (k' <? n))%Z
  then match nth_error l (Z.to_nat k') with
       | Some x => Ok x
       | None => Err IndexError
       end
  else Err IndexError.

(** [range(n)] *)
Definition range (n : Z) : list Z := map Z.of_nat (seq 0 (Z.to_nat n)).

(** [np.transpose(recon, axes=(2,1,0))[:, ::-1, :]] *)
Definition reorient (recon : volume) : volume :=
  mk_array3 (dim2 recon) (dim1 recon) (dim0 recon)
    (fun i j k => get3 recon k (dim1 recon - 1 - j)%nat i).

(** Extent of [a[n:-n]] along an axis of length [d]. *)
Definition unpad_len (d n : nat) : nat :=
  match n with
  | O => O
  | _ => (d - n - Nat.min n d)%nat
  end.

(** [A[n:-n, n:-n, n:-n]] *)
Definition unpad (n : nat) (a : volume) : volume :=
  mk_array3 (unpad_len (dim0 a) n) (unpad_len (dim1 a) n) (unpad_len (dim2 a) n)
    (fun i j k => get3 a (i + n)%nat (j + n)%nat (k + n)%nat).

(** [np.pad(a, [(n,n),(0,0),(n,n)], mode='constant', constant_values=0)] *)
Definition pad (n : nat) (a : stack) : stack :=
  mk_array3 (dim0 a + 2 * n) (dim1 a) (dim2 a + 2 * n)
    (fun i j k =>
       if ((n <=? i) && (i <? n + dim0 a) && (n <=? k) && (k <? n + dim2 a))%nat
       then get3 a (i - n)%nat j (k - n)%nat
       else 0).

(** The computation [m], started on trace [tr], returns a value. *)
Definition returns {A : Type} (m : M A) (tr : list event) : Prop :=
  exists a tr', m tr = (Ok a, tr').

Section Backend.

(** The Reconstruction Backend: the solver behind [generate_reconstruction]
    and the forward projector behind [generate_A_projection_fast].  Both may
    fail. *)
Variable backend_reconstruct :
  stack -> list (list R) -> string -> Z -> R -> Z -> result volume.
Variable backend_forward_project :
  volume -> volume -> volume -> list angle -> mesh_params ->
  result (stack * stack * stack).

(** The magnetic flux quantum. *)
Variable flux_quantum : R.

Definition generate_reconstruction (raw_data : stack) (vectors : list (list R))
           (algorithm : string) (niter : Z) (weight : R) (callback_freq : Z)
  : M volume :=
  _ <~ emit (BackendReconstruct raw_data vectors algorithm niter weight) ;;
  lift (backend_reconstruct raw_data vectors algorithm niter weight callback_freq).

Definition generate_A_projection_fast (AX AY AZ : volume) (angles : list angle)
           (mesh : mesh_params) : M (stack * stack * stack) :=
  _ <~ emit (BackendForwardProject angles) ;;
  lift (backend_forward_project AX AY AZ angles mesh).

Definition astra_clear : M unit := emit BackendClear.

Definition recon_step (a_projs : stack) (ws : list R) (angles : list angle)
           (mesh : mesh_params) (thresh : R) (algorithm : string) (niter : Z)
           (weight : R) (callback_freq : Z) : M volume :=
  _ <~ emit (CallReconStep ws thresh) ;;
  res <~ lift (match mesh with
               | (_, (p2_0, _, _), (nn_0, _, _)) => py_div p2_0 nn_0
               end) ;;
  sel <~ lift (threshold_loop a_projs angles thresh 0 ws) ;;
  let angles_thresh := snd sel in
  a_thresh <~ lift (transpose_102 (fst sel)) ;;
  let vecs := Geometry.generate_vectors angles_thresh in
  recon <~ generate_reconstruction a_thresh vecs algorithm niter weight callback_freq ;;
  let recon := reorient recon in
  let recon := map3 (fun x => x / res) recon in
  _ <~ astra_clear ;;
  ret recon.

(** One pass of the three per-component reconstructions. *)
Definition recon_xyz (a_weighted : stack * stack * stack) (ws : list (R * R * R))
           (angles : list angle) (mesh : mesh_params) (thresh : R)
           (algorithm : string) (niter : Z) (weight : R) (callback_freq : Z)
  : M (volume * volume * volume) :=
  match a_weighted with
  | (a_weighted_x, a_weighted_y, a_weighted_z) =>
    w0 <~ lift (ws_column 0 ws) ;;
    Ax_recon <~ recon_step a_weighted_x w0 angles mesh thresh algorithm niter
                  weight callback_freq ;;
    w1 <~ lift (ws_column 1 ws) ;;
    Ay_recon <~ recon_step a_weighted_y w1 angles mesh thresh algorithm niter
                  weight callback_freq ;;
    w2 <~ lift (ws_column 2 ws) ;;
    Az_recon <~ recon_step a_weighted_z w2 angles mesh thresh algorithm niter
                  weight callback_freq ;;
    ret (Ax_recon, Ay_recon, Az_recon)
  end.

(** The body of [for i in range(n_full_iter-1)], over the remaining indices. *)
Fixpoint major_loop (phase_projs : stack) (ws : list (R * R * R))
         (angles : list angle) (mesh : mesh_params) (n_pad : nat)
         (algorithm : string) (n_step_iter : Z) (weight : R) (callback_freq : Z)
         (possible_ts : list R) (idxs : list Z) (recon : volume * volume * volume)
  : M (volume * volume * volume) :=
  match idxs with
  | [] => ret recon
  | i :: idxs' =>
    match recon with
    | (Ax_recon, Ay_recon, Az_recon) =>
      thresh <~ lift (py_getitem possible_ts (- (i + 1))) ;;
      let n := n_pad in
      proj <~ generate_A_projection_fast (unpad n Ax_recon) (unpad n Ay_recon)
                (unpad n Az_recon) angles mesh ;;
      match proj with
      | (a_weighted_x, a_weighted_y, a_weighted_z) =>
        let a_weighted_x := pad n_pad a_weighted_x in
        let a_weighted_y := pad n_pad a_weighted_y in
        let a_weighted_z := pad n_pad a_weighted_z in
        a_weighted <~ lift (update_weighted_proj_data flux_quantum phase_projs
                              a_weighted_x a_weighted_y a_weighted_z ws) ;;
        recon' <~ recon_xyz a_weighted ws angles mesh thresh algorithm
                    n_step_iter weight callback_freq ;;
        _ <~ astra_clear ;;
        major_loop phase_projs ws angles mesh n_pad algorithm n_step_iter weight
          callback_freq possible_ts idxs' recon'
      end
    end
  end.

Definition iterative_update_algorithm (phase_projs : stack) (angles : list angle)
           (mesh : mesh_params) (n_pad : nat) (n_full_iter : Z) (n_step_iter : Z)
           (algorithm : string) (weight : R) (thresh_range : R * R)
           (callback : bool) : M (volume * volume * volume) :=
  let callback_freq := if callback then 1%Z else 0%Z in
  let ws := Geometry.calculate_A_contributions angles in
  let (tmin, tmax) := thresh_range in
  possible_ts <~ lift (AngleScheme.linspace tmin tmax
                         (AngleScheme.PyInt (n_full_iter - 1))) ;;
  let thresh := tmax in
  let a_weighted_x := zeros_like phase_projs in
  let a_weighted_y := zeros_like phase_projs in
  let a_weighted_z := zeros_like phase_projs in
  a_weighted <~ lift (update_weighted_proj_data flux_quantum phase_projs
                        a_weighted_x a_weighted_y a_weighted_z ws) ;;
  recon <~ recon_xyz a_weighted ws angles mesh thresh algorithm n_step_iter
             weight callback_freq ;;
  major_loop phase_projs ws angles mesh n_pad algorithm n_step_iter weight
    callback_freq possible_ts (range (n_full_iter - 1)) recon.

End Backend.

(** The schedule in the words of the spec: the first major iteration uses
    [tmax], the following ones the linear schedule from [tmin] to [tmax] read
    from its high end downwards. *)
Definition spec_schedule (nmaj : Z) (tmin tmax : R) : result (list R) :=
  ts <- AngleScheme.linspace tmin tmax (AngleScheme.PyInt (nmaj - 1)) ;;
  Ok (tmax :: rev ts).

(** A sequence of thresholds that never goes up. *)
Definition non_increasing (ts : list R) : Prop := Sorted (fun a b => b <= a) ts.

(** Each major iteration makes three [recon_step] calls. *)
Definition thrice (ts : list R) : list R := flat_map (fun t => [t; t; t]) ts.

(** Threshold [t] leaves every component at least one angle of the scheme. *)
Definition leaves_an_angle (angles : list angle) (t : R) : Prop :=
  forall k, (k < 3)%nat ->
  exists j, (j < List.length angles)%nat /\
            t < Rabs (nth_weight k j (Geometry.calculate_A_contributions angles)).

End Reconstructor.

(** ** Sample inputs *)

Module Samples.

Import Arrays.

(** A 1x1x1 stack holding [v]. *)
Definition unit_stack {T : Type} (v : T) : array3 T :=
  mk_array3 1 1 1 (fun _ _ _ => v).

(** One angle that shows all three components equally. *)
Definition even_weights : list (R * R * R) := [(1, 1, 1)].

(** One angle along the beam axis, in binary64: only Az is visible. *)
Definition axial_weights : list (float * float * float) :=
  [(0%float, 0%float, 1%float)].

(** The CODATA value of the magnetic flux quantum rounded to binary64. *)
Definition flux_quantum_f : float := 0x1.2a019a830a613p-49%float.

(** The CODATA value of the magnetic flux quantum, in webers. *)
Definition flux_quantum_r : R := 2067833848 / 1000000000000000000000000.

(** Three angles, each showing one component in full:
    along the beam, tilted 90 degrees about x, tilted 90 degrees about y. *)
Definition axis_angles : list (R * R * R) := [(0, 0, 0); (90, 0, 0); (0, 90, 0)].

(** A 3x3x3 phase stack, one slice per angle of [axis_angles]. *)
Definition cube_phase : array3 R := mk_array3 3 3 3 (fun _ _ _ => 1).

Definition cube_mesh : Reconstructor.mesh_params :=
  ((0, 0, 0), (3, 3, 3), (3, 3, 3)).

(** A solver that returns a zero voxel whatever it is given. *)
Definition still_solver (raw_data : array3 R) (vectors : list (list R))
           (algorithm : string) (niter : Z) (weight : R) (callback_freq : Z)
  : result (array3 R) :=
  Ok (unit_stack 0).

(** A projector that returns zero stacks one detector pixel wide, one slice
    per angle. *)
Definition blank_projector (AX AY AZ : array3 R) (angles : list (R * R * R))
           (mesh : Reconstructor.mesh_params)
  : result (array3 R * array3 R * array3 R) :=
  let s := mk_array3 1 (List.length angles) 1 (fun _ _ _ => 0) in
  Ok (s, s, s).

End Samples.

(** ** Vector fields on a grid *)

Module VectorField.

Import Arrays.

(** [a[i,j,k]], which NumPy rejects outside the shape. *)
Definition read3 (a : array3 R) (i j k : nat) : result R :=
  if ((i <? dim0 a) && (j <? dim1 a) && (k <? dim2 a))%nat
  then Ok (get3 a i j k)
  else Err IndexError.

(** A [for] loop over [idx] whose body appends to one list. *)
Fixpoint collect {A : Type} (idx : list nat) (body : nat -> result (list A))
  : result (list A) :=
  match idx with
  | [] => Ok []
  | i :: rest =>
    x <- body i ;;
    xs <- collect rest body ;;
    Ok (x ++ xs)
  end.

Definition grid_to_coor (U V W : array3 R) : result (list (list R)) :=
  let nx := dim0 U in
  let ny := dim1 U in
  let nz := dim2 U in
  collect (seq 0 nx) (fun ix =>
    collect (seq 0 ny) (fun iy =>
      collect (seq 0 nz) (fun iz =>
        x <- read3 U ix iy iz ;;
        y <- read3 V ix iy iz ;;
        z <- read3 W ix iy iz ;;
        Ok [[x; y; z]]))).

(** [np.take(rows, k, axis=1)] on a list of rows: an empty list is a 1-D
    array without axis 1 (NumPy's [AxisError], an [IndexError]); rows of
    unequal length do not form an array; column [k] must exist. *)
Definition take_col (k : nat) (rows : list (list R)) : result (list R) :=
  match rows with
  | [] => Err IndexError
  | r0 :: _ =>
    if forallb (fun r => (List.length r =? List.length r0)%nat) rows
    then if (k <? List.length r0)%nat
         then Ok (map (fun r => nth k r 0) rows)
         else Err IndexError
    else Err ValueError
  end.

(** [x.reshape((nx,ny,nz))] in C order. *)
Definition reshape3 (x : list R) (nx ny nz : nat) : result (array3 R) :=
  if (List.length x =? nx * ny * nz)%nat
  then Ok (mk_array3 nx ny nz (fun i j k => nth ((i * ny + j) * nz + k) x 0))
  else Err ValueError.

(** Python's [for i,M in enumerate(rows)] with a body that may raise. *)
Fixpoint for_each {A B : Type} (f : A -> result B) (l : list A) : result (list B) :=
  match l with
  | [] => Ok []
  | a :: l' =>
    b <- f a ;;
    bs <- for_each f l' ;;
    Ok (b :: bs)
  end.

(** [mrot.dot(M)] needs [M] to have three entries. *)
Definition rotate_vector (coor_flat : list (list R)) (ax ay az : R)
  : result (list (list R)) :=
  let mrot := Geometry.rotation_matrix ax ay az true in
  for_each (fun M => if (List.length M =? 3)%nat
                     then Ok (Geometry.mdotv mrot M)
                     else Err ValueError) coor_flat.

Section Resampling.

(** [int(np.round(n**(1/3)))], used when no shape is given. *)
Variable round_cube_root : nat -> nat.

(** [scipy.ndimage] resampling behind [rotate_bulk]. *)
Variable rotate_bulk : array3 R -> R -> R -> R -> array3 R.

Definition coor_to_grid (coor_flat : list (list R)) (shape : option (nat * nat * nat))
  : result (array3 R * array3 R * array3 R) :=
  let shape :=
      match shape with
      | None => let n := round_cube_root (List.length coor_flat) in (n, n, n)
      | Some s => s
      end in
  match shape with
  | (nx, ny, nz) =>
    x <- take_col 0 coor_flat ;;
    y <- take_col 1 coor_flat ;;
    z <- take_col 2 coor_flat ;;
    U <- reshape3 x nx ny nz ;;
    V <- reshape3 y nx ny nz ;;
    W <- reshape3 z nx ny nz ;;
    Ok (U, V, W)
  end.


End Resampling.

(** The rows a grid of vectors flattens to, voxel by voxel in C order. *)
Definition voxel_rows (U V W : array3 R) : list (list R) :=
  flat_map (fun ix =>
    flat_map (fun iy =>
      map (fun iz => [get3 U ix iy iz; get3 V ix iy iz; get3 W ix iy iz])
          (seq 0 (dim2 U)))
      (seq 0 (dim1 U)))
    (seq 0 (dim0 U)).

Definition identity3 : list (list R) := [[1; 0; 0]; [0; 1; 0]; [0; 0; 1]].

End VectorField.

(** ** Angle wrapping, normalisation, projection and quality measures *)

Module Utilities.

Import Arrays.

(** [shift_angles]: add [angle] to every entry, then bring an entry above pi
    down by two pi and an entry below -pi up by two pi.  Both tests read the
    shifted value [v], not the entry just written. *)
Definition wrap_once (v : R) : R :=
  let entry := if Rlt_dec PI v then v - 2 * PI else v in
  if Rlt_dec v (- PI) then v + 2 * PI else entry.

Definition shift_angles (vals : list (list R)) (angle : option R) : list (list R) :=
  match angle with
  | None => vals
  | Some a =>
    let newvals := map (map (fun v => v + a)) vals in
    map (map wrap_once) newvals
  end.

(** [np.linalg.norm(v, ord=1)] of a 1-D array. *)
Definition l1_norm (v : list R) : R := fold_right Rplus 0 (map Rabs v).

Section Normalize.

(** [np.finfo(v.dtype).eps] of a float array. *)
Variable eps : R.

Definition normalize (v : list R) : list R :=
  let norm := l1_norm v in
  let norm := if Req_dec_T norm 0 then eps else norm in
  map (fun x => x / norm) v.

End Normalize.

(** [np.sum(U*z_res, axis=2)] at one pixel. *)
Definition sum_along_z (U : array3 R) (z_res : R) (i j : nat) : R :=
  fold_right Rplus 0 (map (fun k => get3 U i j k * z_res) (seq 0 (dim2 U))).

Definition project_along_z (U : array3 R)
           (mesh : option Reconstructor.mesh_params) : result (array2 R) :=
  z_res <- match mesh with
           | None => Reconstructor.py_div (INR (dim2 U)) (INR (dim2 U))
           | Some (_, (_, _, p2_2), (_, _, n_2)) => Reconstructor.py_div p2_2 n_2
           end ;;
  Ok (mk_array2 (dim0 U) (dim1 U) (sum_along_z U z_res)).

(** All entries of a 3-D array, in C order. *)
Definition entries (a : array3 R) : list R :=
  flat_map (fun i =>
    flat_map (fun j => map (fun k => get3 a i j k) (seq 0 (dim2 a)))
             (seq 0 (dim1 a)))
    (seq 0 (dim0 a)).

(** [np.sum] over a whole array. *)
Definition sum3 (a : array3 R) : R := fold_right Rplus 0 (entries a).

(** [a * b] on two 3-D arrays, with NumPy broadcasting. *)
Definition mul3 (a b : array3 R) : result (array3 R) :=
  d0 <- bdim (dim0 a) (dim0 b) ;;
  d1 <- bdim (dim1 a) (dim1 b) ;;
  d2 <- bdim (dim2 a) (dim2 b) ;;
  Ok (mk_array3 d0 d1 d2
        (fun i j k =>
           get3 a (bidx (dim0 a) i) (bidx (dim1 a) j) (bidx (dim2 a) k)
           * get3 b (bidx (dim0 b) i) (bidx (dim1 b) j) (bidx (dim2 b) k))).

(** [a**2] *)
Definition square3 (a : array3 R) : array3 R := map3 (fun x => x ^ 2) a.

(** [CC(A,B)]; [x**0.5] is read as the square root. *)
Definition CC (A B : array3 R) : result R :=
  let N := INR (dim0 A * dim1 A * dim2 A) in
  AB <- mul3 A B ;;
  let num := N * sum3 AB - sum3 A * sum3 B in
  let denom := R_sqrt.sqrt ((N * sum3 (square3 A) - (sum3 A) ^ 2)
                     * (N * sum3 (square3 B) - (sum3 B) ^ 2)) in
  Ok (num / denom).

End Utilities.

(** ** Dual-axis reconstruction and trace counts *)

Module DualAxis.

Import Arrays Reconstructor.



Definition is_clear (e : event) : bool :=
  match e with BackendClear => true | _ => false end.

Definition clear_calls (tr : list event) : nat := List.length (filter is_clear tr).

Section Backend.

Variable backend_reconstruct :
  stack -> list (list R) -> string -> Z -> R -> Z -> result volume.

Definition dual_axis_reconstruction (xdata ydata : stack) (axs ays : list angle)
           (mesh : mesh_params) (algorithm : string) (niter : Z) (weight : R)
           (callback_freq : Z) : M (volume * volume) :=
  match mesh with
  | (_, (p2_0, p2_1, _), (nn_0, nn_1, _)) =>
    resx <~ lift (py_div p2_0 nn_0) ;;
    resy <~ lift (py_div p2_1 nn_1) ;;
    let vecs := Geometry.generate_vectors axs in
    rx <~ generate_reconstruction backend_reconstruct xdata vecs algorithm niter
            weight callback_freq ;;
    _ <~ astra_clear ;;
    let vecs := Geometry.generate_vectors ays in
    ry <~ generate_reconstruction backend_reconstruct ydata vecs algorithm niter
            weight callback_freq ;;
    let rx := reorient rx in
    let ry := reorient ry in
    let rx := map3 (fun x => x / resx) rx in
    let ry := map3 (fun x => x / resy) ry in
    _ <~ astra_clear ;;
    ret (rx, ry)
  end.

End Backend.

End DualAxis.

(** * Properties *)

(** ** Rotation geometry and weights *)

Section GeometryFacts.

Import Geometry.

Lemma sin_cos_sq (x : R) : sin x * sin x + cos x * cos x = 1.
Proof. generalize (sin2_cos2 x). unfold Rsqr. auto. Qed.

Ltac eval_geometry :=
  cbv [calculate_A_contributions get_astravec rotation_matrix mdot mdotv dot1
       column map combine fold_right seq List.length hd nth fst snd app
       buildProjectionVector_spec extrinsic_matrix intrinsic_matrix M3mul M3app
       Rx Ry Rz rows3 pick3 list3 radians ray_of det_u_of det_v_of firstn skipn
       sumsq].

Ltac split_data :=
  repeat match goal with
         | |- @cons _ _ _ = @cons _ _ _ => apply f_equal2
         | |- @pair _ _ _ _ = @pair _ _ _ _ => apply f_equal2
         | |- @nil _ = @nil _ => reflexivity
         end.

(** Name the six trigonometric values of a triple and keep only the three
    Pythagorean identities about them. *)
Ltac abstract_trig ax ay az :=
  generalize (sin_cos_sq (ax * PI / 180)) (sin_cos_sq (ay * PI / 180))
             (sin_cos_sq (az * PI / 180));
  generalize (sin (ax * PI / 180)) (cos (ax * PI / 180))
             (sin (ay * PI / 180)) (cos (ay * PI / 180))
             (sin (az * PI / 180)) (cos (az * PI / 180));
  intros.

(** The weight triple of one rotation triple, in closed form. *)
Lemma weight_triple_closed_form (ax ay az : R) :
  calculate_A_contributions [(ax, ay, az)] =
  [(- sin (radians ay),
    cos (radians ay) * sin (radians ax),
    cos (radians ax) * cos (radians ay))].
Proof. eval_geometry. split_data; ring. Qed.

Lemma closed_form_normalised (ax ay : R) :
  sumsq (- sin (radians ay),
         cos (radians ay) * sin (radians ax),
         cos (radians ax) * cos (radians ay)) = 1.
Proof.
  unfold sumsq.
  generalize (sin_cos_sq (radians ax)) (sin_cos_sq (radians ay)).
  generalize (sin (radians ax)) (cos (radians ax))
             (sin (radians ay)) (cos (radians ay)).
  intros. nsatz.
Qed.

Lemma contributions_cons (a : R * R * R) (angles : list (R * R * R)) :
  calculate_A_contributions (a :: angles) =
  calculate_A_contributions [a] ++ calculate_A_contributions angles.
Proof. reflexivity. Qed.

(** C3, as stated, is false: no rotation triple has a weight triple whose
    squares do not sum to one. *)
Lemma weights_never_unnormalised :
  ~ (exists ax ay az w,
        calculate_A_contributions [(ax, ay, az)] = [w] /\ sumsq w <> 1).
Proof.
  intros (ax & ay & az & w & Hw & Hne).
  rewrite weight_triple_closed_form in Hw.
  injection Hw as <-. apply Hne, closed_form_normalised.
Qed.

(** C3 (amended): for every angle scheme, every weight triple computed by
    [calculate_A_contributions] satisfies wx^2 + wy^2 + wz^2 = 1 in exact
    arithmetic. *)
Theorem weights_normalised (angles : list (R * R * R)) :
  Forall (fun w => sumsq w = 1) (calculate_A_contributions angles).
Proof.
  induction angles as [| [[ax ay] az] angles IH].
  - constructor.
  - rewrite contributions_cons, weight_triple_closed_form.
    constructor; [apply closed_form_normalised | exact IH].
Qed.

(** C5: [get_astravec] returns the twelve numbers r, d, u, v with
    r = M(0,0,1)(-1), d = 0, u = M(1,0,0), v = M(0,1,0), where M is the
    extrinsic product Rx Ry Rz taken at (ax, -ay, az). *)
Theorem get_astravec_spec (ax ay az : R) :
  let M := extrinsic_matrix ax (- ay) az in
  get_astravec ax ay az = buildProjectionVector_spec ax ay az /\
  ray_of (get_astravec ax ay az) = list3 (fun i => M3app M (pick3 0 0 1) i * -1) /\
  firstn 3 (skipn 3 (get_astravec ax ay az)) = [0; 0; 0] /\
  det_u_of (get_astravec ax ay az) = list3 (M3app M (pick3 1 0 0)) /\
  det_v_of (get_astravec ax ay az) = list3 (M3app M (pick3 0 1 0)) /\
  List.length (get_astravec ax ay az) = 12%nat.
Proof.
  repeat split; eval_geometry; split_data; ring.
Qed.

(** C6: the detector vectors u and v of [get_astravec] are orthogonal unit
    vectors and the ray direction r is orthogonal to both. *)
Theorem astravec_orthonormal (ax ay az : R) :
  let p := get_astravec ax ay az in
  dot1 (det_u_of p) (det_u_of p) = 1 /\
  dot1 (det_v_of p) (det_v_of p) = 1 /\
  dot1 (det_u_of p) (det_v_of p) = 0 /\
  dot1 (ray_of p) (det_u_of p) = 0 /\
  dot1 (ray_of p) (det_v_of p) = 0.
Proof.
  repeat split; eval_geometry; abstract_trig ax (- ay) az; nsatz.
Qed.

(** C9: the weight triples are the third rows of the intrinsic matrices
    Rz Ry Rx; the z weight is cos(ax) cos(ay), whatever the z angle. *)
Theorem weights_third_row (angles : list (R * R * R)) :
  calculate_A_contributions angles =
  map (fun a => match a with
                | (ax, ay, az) =>
                  (intrinsic_matrix ax ay az 2%nat 0%nat,
                   intrinsic_matrix ax ay az 2%nat 1%nat,
                   intrinsic_matrix ax ay az 2%nat 2%nat)
                end) angles /\
  (forall ax ay az,
      intrinsic_matrix ax ay az 2%nat 2%nat = cos (radians ax) * cos (radians ay)) /\
  (forall ax ay az az',
      map snd (calculate_A_contributions [(ax, ay, az)]) =
      map snd (calculate_A_contributions [(ax, ay, az')])).
Proof.
  split; [| split].
  - unfold calculate_A_contributions. apply map_ext. intros [[ax ay] az].
    eval_geometry. split_data; ring.
  - intros. eval_geometry. ring.
  - intros. now rewrite !weight_triple_closed_form.
Qed.

End GeometryFacts.

(** ** Array operations *)

Section ArrayFacts.

Import Arrays.
Context {T : Type} `{Scalar T}.

Lemma bdim_same (a : nat) : bdim a a = Ok a.
Proof. unfold bdim. now rewrite Nat.eqb_refl. Qed.

Lemma bidx_in_range (d i : nat) : (i < d)%nat -> bidx d i = i.
Proof.
  unfold bidx. destruct (Nat.eqb_spec d 1); [lia | reflexivity].
Qed.

(** On a stack with enough tilt slices the loop of [weight_phases] succeeds and
    its [t]-th image is slice [i + t] scaled by the [t]-th weight. *)
Lemma weight_loop_ok (projs : array3 T) (ws : list T) :
  forall i, (i + List.length ws <= dim1 projs)%nat ->
  exists ps,
    weight_loop projs i ws = Ok ps /\
    List.length ps = List.length ws /\
    forall t d dw, (t < List.length ws)%nat ->
      rows2 (nth t ps d) = dim0 projs /\
      cols2 (nth t ps d) = dim2 projs /\
      forall r c, get2 (nth t ps d) r c
                  = sc_mul (get3 projs r (i + t)%nat c) (nth t ws dw).
Proof.
  induction ws as [| w ws IH]; intros i Hlen.
  - exists []. repeat split; simpl in *; lia.
  - simpl in Hlen. destruct (IH (S i)) as (ps & Hps & Hl & Hnth); [lia |].
    exists (scale2 (mk_array2 (dim0 projs) (dim2 projs)
                      (fun r c => get3 projs r i c)) w :: ps).
    split; [| split].
    + simpl. unfold slice_tilt.
      destruct (Nat.ltb_spec i (dim1 projs)); [| lia].
      simpl. rewrite Hps. reflexivity.
    + simpl. now rewrite Hl.
    + intros [| t] d dw Ht.
      * simpl. rewrite Nat.add_0_r. auto.
      * simpl in Ht. simpl.
        destruct (Hnth t d dw) as (Hr & Hc & Hg); [lia |].
        repeat split; auto.
        intros r c. rewrite Hg. now replace (S i + t)%nat with (i + S t)%nat by lia.
Qed.

(** [weight_phases] on a stack with exactly one slice per weight. *)
Lemma weight_phases_ok (projs : array3 T) (ws : list T) :
  ws <> [] -> List.length ws = dim1 projs ->
  exists out,
    weight_phases projs ws = Ok out /\
    dim0 out = dim0 projs /\ dim1 out = dim1 projs /\ dim2 out = dim2 projs /\
    forall r t c dw, (t < dim1 projs)%nat ->
      get3 out r t c = sc_mul (get3 projs r t c) (nth t ws dw).
Proof.
  intros Hne Hlen.
  destruct (weight_loop_ok projs ws 0) as (ps & Hps & Hl & Hnth); [lia |].
  unfold weight_phases. rewrite Hps. simpl.
  destruct ps as [| p0 ps'].
  - destruct ws; [congruence | discriminate].
  - eexists. split; [reflexivity |].
    assert (H0 : (0 < List.length ws)%nat) by (destruct ws; [congruence | simpl; lia]).
    destruct (Hnth 0%nat p0 sc_zero H0) as (Hr & Hc & _). simpl in Hr, Hc.
    simpl dim0. simpl dim1. simpl dim2. simpl get3.
    repeat split; try assumption.
    + simpl in Hl. lia.
    + intros r t c dw Ht.
      destruct (Hnth t p0 dw) as (_ & _ & Hg); [lia |].
      now rewrite Hg.
Qed.

Lemma ws_column_ok (k : nat) (ws : list (T * T * T)) :
  ws <> [] ->
  exists col,
    ws_column k ws = Ok col /\ col <> [] /\ List.length col = List.length ws /\
    forall t, nth t col sc_zero = weight_k k (nth t ws (sc_zero, sc_zero, sc_zero)).
Proof.
  intros Hne. destruct ws as [| w ws]; [congruence |].
  eexists. split; [reflexivity |]. split; [discriminate |].
  split; [apply length_map |].
  intros t.
  destruct (Nat.lt_ge_cases t (List.length (w :: ws))) as [Hlt | Hge].
  - rewrite (nth_indep _ sc_zero (weight_k k (sc_zero, sc_zero, sc_zero)))
      by (now rewrite length_map).
    apply map_nth.
  - rewrite !nth_overflow; [| assumption | now rewrite length_map].
    now destruct k as [| [| k]].
Qed.

Lemma reciprocals_nth (ws : list T) (t : nat) :
  (t < List.length ws)%nat ->
  nth t (reciprocals ws) sc_zero = sc_div sc_one (nth t ws sc_zero).
Proof.
  intros Ht. unfold reciprocals.
  rewrite (nth_indep _ sc_zero (sc_div sc_one sc_zero)) by (now rewrite length_map).
  apply (map_nth (fun w => sc_div sc_one w)).
Qed.

Lemma nth_map_weight (k t : nat) (ws : list (T * T * T)) :
  nth t (map (weight_k k) ws) sc_zero = nth_weight k t ws.
Proof.
  unfold nth_weight.
  destruct (Nat.lt_ge_cases t (List.length ws)) as [Hlt | Hge].
  - rewrite (nth_indep _ sc_zero (weight_k k (sc_zero, sc_zero, sc_zero)))
      by (now rewrite length_map).
    apply map_nth.
  - rewrite !nth_overflow; [| assumption | now rewrite length_map].
    now destruct k as [| [| k]].
Qed.

(** One component of the decontamination step, entry by entry. *)
Lemma decontaminate_ok (flux : T) (phase a b : array3 T) (ka kb kt : nat)
      (ws : list (T * T * T)) :
  ws <> [] -> List.length ws = dim1 phase ->
  same_shape phase a -> same_shape phase b ->
  exists out,
    decontaminate flux phase a b ka kb kt ws = Ok out /\
    same_shape phase out /\
    forall r t c, (r < dim0 phase)%nat -> (t < dim1 phase)%nat -> (c < dim2 phase)%nat ->
      get3 out r t c =
      sc_mul (sc_sub (sc_sub (sc_div (sc_mul (get3 phase r t c) sc_one)
                                     (phase_const flux))
                             (sc_mul (get3 a r t c) (nth_weight ka t ws)))
                     (sc_mul (get3 b r t c) (nth_weight kb t ws)))
             (sc_div sc_one (nth_weight kt t ws)).
Proof.
  intros Hne Hlen (Ha0 & Ha1 & Ha2) (Hb0 & Hb1 & Hb2).
  unfold decontaminate.
  destruct (ws_column_ok ka ws Hne) as (ca & -> & Hca_ne & Hca_len & Hca).
  destruct (ws_column_ok kb ws Hne) as (cb & -> & Hcb_ne & Hcb_len & Hcb).
  destruct (ws_column_ok kt ws Hne) as (ct & -> & Hct_ne & Hct_len & Hct).
  simpl bind.
  destruct (weight_phases_ok a ca Hca_ne) as (pa & -> & Hpa0 & Hpa1 & Hpa2 & Hpa);
    [congruence |].
  simpl bind.
  unfold sub3 at 1. simpl dim0; simpl dim1; simpl dim2.
  rewrite Hpa0, Hpa1, Hpa2, <- Ha0, <- Ha1, <- Ha2, !bdim_same. simpl bind.
  destruct (weight_phases_ok b cb Hcb_ne) as (pb & -> & Hpb0 & Hpb1 & Hpb2 & Hpb);
    [congruence |].
  simpl bind.
  unfold sub3 at 1. simpl dim0; simpl dim1; simpl dim2.
  rewrite Hpb0, Hpb1, Hpb2, <- Hb0, <- Hb1, <- Hb2, !bdim_same. simpl bind.
  match goal with
  | |- exists out, weight_phases ?d (reciprocals ct) = _ /\ _ => set (d2 := d)
  end.
  destruct (weight_phases_ok d2 (reciprocals ct)) as (out & -> & Ho0 & Ho1 & Ho2 & Ho).
  { unfold reciprocals. destruct ct; [congruence | discriminate]. }
  { unfold reciprocals. rewrite length_map. simpl. congruence. }
  exists out. split; [reflexivity |]. split; [now repeat split |].
  intros r t c Hr Ht Hc. unfold nth_weight.
  rewrite (Ho r t c sc_zero) by exact Ht.
  rewrite reciprocals_nth by lia.
  rewrite Hct.
  f_equal.
  subst d2. simpl get3.
  repeat (rewrite (bidx_in_range _ r) by lia).
  repeat (rewrite (bidx_in_range _ t) by lia).
  repeat (rewrite (bidx_in_range _ c) by lia).
  rewrite (Hpa r t c sc_zero) by lia.
  rewrite (Hpb r t c sc_zero) by lia.
  rewrite Hca, Hcb. reflexivity.
Qed.

End ArrayFacts.

(** ** The decontamination step in exact arithmetic *)

Section DecontaminationFacts.

Import Arrays.

Lemma phase_const_nonzero (flux : R) : 0 < flux -> phase_const flux <> 0.
Proof.
  intros Hf. unfold phase_const. simpl.
  pose proof PI_RGT_0 as Hpi.
  assert (Hq : - PI / flux / (2 * PI) = - (/ (2 * flux))) by (field; lra).
  rewrite Hq.
  assert (0 < / (2 * flux)) by (apply Rinv_0_lt_compat; lra).
  lra.
Qed.

Lemma nonzero_at (ws : list (R * R * R)) (t : nat) :
  Forall (fun w => weight_k 0 w <> 0 /\ weight_k 1 w <> 0 /\ weight_k 2 w <> 0) ws ->
  (t < List.length ws)%nat ->
  nth_weight 0 t ws <> 0 /\ nth_weight 1 t ws <> 0 /\ nth_weight 2 t ws <> 0.
Proof.
  intros Hall Ht. rewrite Forall_forall in Hall.
  apply (Hall (nth t ws (sc_zero, sc_zero, sc_zero))). now apply nth_In.
Qed.

Lemma mix_model_entry (flux : R) (ws : list (R * R * R)) (Ax Ay Az : array3 R)
      (i j k : nat) :
  get3 (mix_model flux ws Ax Ay Az) i j k =
  phase_const flux *
  (nth_weight 0 j ws * get3 Ax i j k + nth_weight 1 j ws * get3 Ay i j k
   + nth_weight 2 j ws * get3 Az i j k).
Proof.
  unfold mix_model, nth_weight. simpl.
  destruct (nth j ws (0, 0, 0)) as [[wx wy] wz]. reflexivity.
Qed.

(** C1: with all weights non-zero and the phase stack generated by the linear
    mixing model from Ax, Ay, Az, [update_weighted_proj_data] returns Ax, Ay,
    Az, and mixing its output again gives back the phase stack. *)
Theorem decontamination_round_trip (flux : R) (ws : list (R * R * R))
        (phase Ax Ay Az : array3 R) :
  0 < flux ->
  ws <> [] ->
  Forall (fun w => weight_k 0 w <> 0 /\ weight_k 1 w <> 0 /\ weight_k 2 w <> 0) ws ->
  List.length ws = dim1 Ax ->
  same_shape Ax Ay -> same_shape Ax Az ->
  array3_eq phase (mix_model flux ws Ax Ay Az) ->
  exists nx ny nz,
    update_weighted_proj_data flux phase Ax Ay Az ws = Ok (nx, ny, nz) /\
    array3_eq nx Ax /\ array3_eq ny Ay /\ array3_eq nz Az /\
    array3_eq (mix_model flux ws nx ny nz) phase.
Proof.
  intros Hflux Hne Hnz Hlen (Hy0 & Hy1 & Hy2) (Hz0 & Hz1 & Hz2) (Hp0 & Hp1 & Hp2 & Hp).
  simpl in Hp0, Hp1, Hp2.
  pose proof (phase_const_nonzero flux Hflux) as Hc.
  assert (Hpx : same_shape phase Ax) by (repeat split; congruence).
  assert (Hpy : same_shape phase Ay) by (repeat split; congruence).
  assert (Hpz : same_shape phase Az) by (repeat split; congruence).
  assert (Hlen' : List.length ws = dim1 phase) by congruence.
  destruct (decontaminate_ok flux phase Ay Az 1 2 0 ws Hne Hlen' Hpy Hpz)
    as (nx & Ex & (Sx0 & Sx1 & Sx2) & Gx).
  destruct (decontaminate_ok flux phase Ax Az 0 2 1 ws Hne Hlen' Hpx Hpz)
    as (ny & Ey & (Sy0 & Sy1 & Sy2) & Gy).
  destruct (decontaminate_ok flux phase Ay Ax 1 0 2 ws Hne Hlen' Hpy Hpx)
    as (nz & Ez & (Sz0 & Sz1 & Sz2) & Gz).
  exists nx, ny, nz.
  assert (Entry : forall r t c, (r < dim0 phase)%nat -> (t < dim1 phase)%nat ->
                                (c < dim2 phase)%nat ->
            get3 nx r t c = get3 Ax r t c /\ get3 ny r t c = get3 Ay r t c /\
            get3 nz r t c = get3 Az r t c).
  { intros r t c Hr Ht Hcc.
    destruct (nonzero_at ws t Hnz) as (Nx & Ny & Nz); [lia |].
    rewrite (Gx r t c Hr Ht Hcc), (Gy r t c Hr Ht Hcc), (Gz r t c Hr Ht Hcc).
    rewrite (Hp r t c Hr Ht Hcc), mix_model_entry.
    cbn [sc_mul sc_sub sc_div sc_one Scalar_R].
    repeat split; field; auto. }
  split.
  { unfold update_weighted_proj_data. rewrite Ex, Ey, Ez. reflexivity. }
  split; [| split; [| split]].
  - repeat split; try congruence.
    intros i j k Hi Hj Hk. apply Entry; congruence.
  - repeat split; try congruence.
    intros i j k Hi Hj Hk. apply Entry; congruence.
  - repeat split; try congruence.
    intros i j k Hi Hj Hk. apply Entry; congruence.
  - split; [simpl; congruence |].
    split; [simpl; congruence |].
    split; [simpl; congruence |].
    intros i j k Hi Hj Hk. simpl in Hi, Hj, Hk.
    assert (Hi' : (i < dim0 phase)%nat) by congruence.
    assert (Hj' : (j < dim1 phase)%nat) by congruence.
    assert (Hk' : (k < dim2 phase)%nat) by congruence.
    rewrite (Hp i j k Hi' Hj' Hk'), !mix_model_entry.
    destruct (Entry i j k Hi' Hj' Hk') as (-> & -> & ->). reflexivity.
Qed.

End DecontaminationFacts.

Lemma decontamination_round_trip_witness :
  exists nx ny nz,
    Arrays.update_weighted_proj_data 1
      (Arrays.mix_model 1 Samples.even_weights (Samples.unit_stack 2)
         (Samples.unit_stack 3) (Samples.unit_stack 5))
      (Samples.unit_stack 2) (Samples.unit_stack 3) (Samples.unit_stack 5)
      Samples.even_weights = Ok (nx, ny, nz) /\
    Arrays.array3_eq nx (Samples.unit_stack 2) /\
    Arrays.array3_eq ny (Samples.unit_stack 3) /\
    Arrays.array3_eq nz (Samples.unit_stack 5) /\
    Arrays.array3_eq
      (Arrays.mix_model 1 Samples.even_weights nx ny nz)
      (Arrays.mix_model 1 Samples.even_weights (Samples.unit_stack 2)
         (Samples.unit_stack 3) (Samples.unit_stack 5)).
Proof.
  apply (decontamination_round_trip 1 Samples.even_weights).
  - lra.
  - discriminate.
  - repeat constructor; simpl; lra.
  - reflexivity.
  - repeat split.
  - repeat split.
  - repeat split.
Defined.

(** ** The thresholding loop *)

Section ThresholdFacts.

Import Arrays.
Context {T : Type} `{Scalar T}.

(** The loop keeps exactly the angles at [kept_indices], one slice each. *)
Lemma threshold_loop_kept {Ang : Type} (a_projs : array3 T) (angles : list Ang)
      (thresh : T) (ws : list T) :
  forall i sel,
    threshold_loop a_projs angles thresh i ws = Ok sel ->
    map Some (snd sel) = map (nth_error angles) (kept_indices thresh i ws) /\
    List.length (fst sel) = List.length (kept_indices thresh i ws).
Proof.
  induction ws as [| w ws IH]; intros i sel Hsel; simpl in Hsel.
  - injection Hsel as <-. split; reflexivity.
  - simpl. destruct (sc_gtb (sc_abs w) thresh).
    + destruct (slice_tilt a_projs i) as [p |]; [| discriminate].
      simpl in Hsel.
      destruct (nth_error angles i) as [a |] eqn:Ha; [| discriminate].
      simpl in Hsel.
      destruct (threshold_loop a_projs angles thresh (S i) ws) as [rest |] eqn:Hr;
        [| discriminate].
      simpl in Hsel. injection Hsel as <-.
      destruct (IH (S i) rest Hr) as (IHa & IHl).
      simpl. rewrite Ha, IHa, IHl. split; reflexivity.
    + now apply IH.
Qed.

(** When no weight passes the test, nothing is kept and nothing is read. *)
Lemma threshold_loop_none {Ang : Type} (a_projs : array3 T) (angles : list Ang)
      (thresh : T) (ws : list T) :
  (forall w, In w ws -> sc_gtb (sc_abs w) thresh = false) ->
  forall i, threshold_loop a_projs angles thresh i ws = Ok ([], []).
Proof.
  induction ws as [| w ws IH]; intros Hall i; simpl.
  - reflexivity.
  - rewrite (Hall w) by (now left). apply IH. intros w' Hw'. apply Hall. now right.
Qed.

Lemma kept_indices_sound (thresh : T) (ws : list T) :
  forall i t, In t (kept_indices thresh i ws) ->
    (i <= t)%nat /\ (t < i + List.length ws)%nat /\
    sc_gtb (sc_abs (nth (t - i) ws sc_zero)) thresh = true.
Proof.
  induction ws as [| w ws IH]; intros i t Hin; simpl in Hin.
  - contradiction.
  - assert (Hrest : In t (kept_indices thresh (S i) ws) ->
                    (i <= t)%nat /\ (t < i + List.length (w :: ws))%nat /\
                    sc_gtb (sc_abs (nth (t - i) (w :: ws) sc_zero)) thresh = true).
    { intros Hin'. destruct (IH (S i) t Hin') as (Hle & Hlt & Hg).
      simpl. repeat split; try lia.
      replace (t - i)%nat with (S (t - S i)) by lia. exact Hg. }
    destruct (sc_gtb (sc_abs w) thresh) eqn:Hw.
    + destruct Hin as [<- | Hin]; [| now apply Hrest].
      simpl. rewrite Nat.sub_diag. repeat split; try lia. exact Hw.
    + now apply Hrest.
Qed.

Lemma kept_indices_complete (thresh : T) (ws : list T) :
  forall i t, (t < List.length ws)%nat ->
    sc_gtb (sc_abs (nth t ws sc_zero)) thresh = true ->
    In (i + t)%nat (kept_indices thresh i ws).
Proof.
  induction ws as [| w ws IH]; intros i t Ht Hg; simpl in Ht.
  - lia.
  - simpl. destruct t as [| t].
    + simpl in Hg. rewrite Hg, Nat.add_0_r. now left.
    + simpl in Hg. replace (i + S t)%nat with (S i + t)%nat by lia.
      destruct (sc_gtb (sc_abs w) thresh); [right |]; apply IH; auto; lia.
Qed.

End ThresholdFacts.

(** ** The decontamination step in binary64 *)

Section FloatFacts.

Import Arrays.





Lemma quarter_turn : Geometry.radians 90 = PI / 2.
Proof. unfold Geometry.radians. field. Qed.



End FloatFacts.

(** ** Angle schemes *)

Section AngleFacts.

Import AngleScheme.

Lemma linspace_length (start stop : R) (n : Z) :
  (0 <= n)%Z ->
  exists l, linspace start stop (PyInt n) = Ok l /\ List.length l = Z.to_nat n.
Proof.
  intros Hn. unfold linspace.
  destruct (Z.ltb_spec n 0); [lia |].
  destruct (Z.to_nat n) as [| [| m]].
  - now exists [].
  - now exists [start].
  - eexists. split; [reflexivity |].
    rewrite length_app, length_map, length_seq. simpl. lia.
Qed.

Lemma linspace_float (start stop x : R) : linspace start stop (PyFloat x) = Err TypeError.
Proof. reflexivity. Qed.

(** C7: with secondary axis gamma below 90 degrees, mode [quad] hands the
    unfloored quotient [n_tilt/4] to [np.linspace], and the call is rejected
    with a [TypeError]. *)
Theorem quad_gamma_below_90_rejected (draws : nat -> R) (n_tilt : Z)
        (alpha beta gamma : R) (dist_n2 : Z) :
  gamma < 90 ->
  generate_angles draws "quad" n_tilt alpha beta gamma dist_n2 "gamma"
  = Err TypeError.
Proof.
  intros Hg. unfold generate_angles. simpl when. simpl bind.
  unfold mode_quad. simpl when. simpl bind.
  destruct (Rle_dec 90 gamma); [lra |].
  reflexivity.
Qed.

Lemma quad_gamma_below_90_rejected_witness :
  generate_angles (fun _ => 0) "quad" 40 70 40 60 8 "gamma" = Err TypeError.
Proof.
  apply (quad_gamma_below_90_rejected (fun _ => 0) 40 70 40 60 8). lra.
Defined.

(** The sibling branch, gamma at least 90, floors the count and succeeds with
    four sub-series of [int(n_tilt/4)] angles each. *)
Lemma quad_gamma_from_90_floors (draws : nat -> R) (n_tilt : Z)
      (alpha beta gamma : R) (dist_n2 : Z) :
  90 <= gamma -> (0 <= n_tilt)%Z ->
  exists angles,
    generate_angles draws "quad" n_tilt alpha beta gamma dist_n2 "gamma"
    = Ok angles /\
    List.length angles = (4 * Z.to_nat (Z.quot n_tilt 4))%nat.
Proof.
  intros Hg Hn. unfold generate_angles. simpl when. simpl bind.
  unfold mode_quad. simpl when. simpl bind.
  destruct (Rle_dec 90 gamma); [| lra].
  unfold int_div. simpl bind. unfold x_series.
  destruct (linspace_length (- alpha) alpha (Z.quot n_tilt 4)) as (l & -> & Hl).
  { apply Z.quot_pos; lia. }
  simpl bind. eexists. split; [reflexivity |].
  rewrite !length_app, !length_map. simpl. lia.
Qed.

(** C8, as stated, is false: a mode outside the enumerated ones is not
    rejected. *)
Lemma unknown_mode_not_rejected :
  recognised_mode "spiral" = false /\
  generate_angles (fun _ => 0) "spiral" 40 70 40 180 8 "gamma" = Ok [].
Proof. split; reflexivity. Qed.

(** C8 (amended): a call whose mode is none of x, y, dual, quad, rand, sync,
    sx, dist raises nothing and returns the empty angle list. *)
Theorem unknown_mode_returns_empty (draws : nat -> R) (mode : string)
        (n_tilt : Z) (alpha beta gamma : R) (dist_n2 : Z) (tilt2 : string) :
  recognised_mode mode = false ->
  generate_angles draws mode n_tilt alpha beta gamma dist_n2 tilt2 = Ok [].
Proof.
  unfold recognised_mode. simpl existsb.
  intros Hm.
  repeat (apply orb_false_elim in Hm; destruct Hm as [? Hm]).
  unfold generate_angles.
  repeat match goal with
         | E : String.eqb mode _ = false |- _ => rewrite E; clear E
         end.
  reflexivity.
Qed.

Lemma unknown_mode_returns_empty_witness :
  generate_angles (fun _ => 1 / 2) "helix" 40 70 40 180 8 "beta" = Ok [].
Proof.
  apply (unknown_mode_returns_empty (fun _ => 1 / 2) "helix" 40 70 40 180 8 "beta").
  reflexivity.
Defined.

Lemma rand_loop_unknown_axis (draws : nat -> R) (alpha beta gamma : R)
      (tilt2 : string) (n : nat) :
  (tilt2 =? "beta")%string = false -> (tilt2 =? "gamma")%string = false ->
  forall k, rand_loop draws alpha beta gamma tilt2 n k = [].
Proof.
  intros Hb Hg. induction n as [| n IH]; intros k; simpl.
  - reflexivity.
  - rewrite Hb, Hg. apply IH.
Qed.

(** Nor is an unknown secondary axis rejected: modes y, quad, rand, sync and
    sx then return the empty list as well. *)
Lemma unknown_axis_returns_empty (draws : nat -> R) (mode : string)
      (n_tilt : Z) (alpha beta gamma : R) (dist_n2 : Z) (tilt2 : string) :
  In mode ["y"; "quad"; "rand"; "sync"; "sx"]%string ->
  (tilt2 =? "beta")%string = false -> (tilt2 =? "gamma")%string = false ->
  generate_angles draws mode n_tilt alpha beta gamma dist_n2 tilt2 = Ok [].
Proof.
  intros Hm Hb Hg.
  simpl in Hm.
  destruct Hm as [<- | [<- | [<- | [<- | [<- | []]]]]];
    unfold generate_angles; simpl when; simpl bind;
      unfold mode_y, mode_quad, mode_rand, mode_sync, mode_sx;
      rewrite ?Hb, ?Hg; try reflexivity.
  rewrite rand_loop_unknown_axis by assumption. reflexivity.
Qed.

End AngleFacts.

(** ** The reconstruction loop *)

Section ReconstructorFacts.

Import Arrays Reconstructor.

Variable backend_reconstruct :
  stack -> list (list R) -> string -> Z -> R -> Z -> result volume.
Variable backend_forward_project :
  volume -> volume -> volume -> list angle -> mesh_params ->
  result (stack * stack * stack).
Variable flux_quantum : R.

Lemma thresholds_used_app (tr1 tr2 : list event) :
  thresholds_used (tr1 ++ tr2) = thresholds_used tr1 ++ thresholds_used tr2.
Proof. unfold thresholds_used. apply flat_map_app. Qed.

Lemma backend_calls_app (tr1 tr2 : list event) :
  backend_calls (tr1 ++ tr2) = backend_calls tr1 ++ backend_calls tr2.
Proof. unfold backend_calls. apply filter_app. Qed.

Lemma bindM_ok {A B : Type} (m : M A) (k : A -> M B) (tr tr' : list event) (b : B) :
  bindM m k tr = (Ok b, tr') ->
  exists a tr1, m tr = (Ok a, tr1) /\ k a tr1 = (Ok b, tr').
Proof.
  unfold bindM. destruct (m tr) as [[a | e] tr1]; intros Hk.
  - now exists a, tr1.
  - discriminate.
Qed.

Lemma lift_ok {A : Type} (r : result A) (tr tr' : list event) (a : A) :
  lift r tr = (Ok a, tr') -> r = Ok a /\ tr' = tr.
Proof. unfold lift. intros [= -> ->]. auto. Qed.

Lemma above_all_not_kept (thresh : R) (ws : list R) :
  (forall w, In w ws -> Rabs w < thresh) ->
  forall w, In w ws -> sc_gtb (sc_abs w) thresh = false.
Proof.
  intros Hall w Hw. simpl. specialize (Hall w Hw).
  destruct (Rlt_dec thresh (Rabs w)); [lra | reflexivity].
Qed.

(** C4: when the threshold exceeds every absolute weight, [recon_step] raises
    before the Reconstruction Backend is invoked; nothing is returned. *)
Theorem recon_step_empty_selection_fails (a_projs : stack) (ws : list R)
        (angles : list angle) (mesh : mesh_params) (thresh : R)
        (algorithm : string) (niter : Z) (weight : R) (callback_freq : Z)
        (tr : list event) :
  (forall w, In w ws -> Rabs w < thresh) ->
  exists e tr',
    recon_step backend_reconstruct a_projs ws angles mesh thresh algorithm niter
      weight callback_freq tr = (Err e, tr') /\
    (e = ValueError \/ e = ZeroDivisionError) /\
    backend_calls tr' = backend_calls tr.
Proof.
  intros Hall.
  destruct mesh as [[p1 [[p2_0 p2_1] p2_2]] [[nn_0 nn_1] nn_2]].
  unfold recon_step, bindM, emit, lift, py_div.
  assert (Hb : backend_calls (tr ++ [CallReconStep ws thresh]) = backend_calls tr).
  { rewrite backend_calls_app. simpl. apply app_nil_r. }
  destruct (Req_dec_T nn_0 0).
  - exists ZeroDivisionError, (tr ++ [CallReconStep ws thresh]). auto.
  - rewrite (threshold_loop_none a_projs angles thresh ws
               (above_all_not_kept thresh ws Hall)).
    exists ValueError, (tr ++ [CallReconStep ws thresh]). auto.
Qed.

(** Whatever its outcome, a [recon_step] call adds its own threshold to the
    thresholds seen so far, and nothing else. *)
Lemma recon_step_trace (a_projs : stack) (ws : list R) (angles : list angle)
      (mesh : mesh_params) (thresh : R) (algorithm : string) (niter : Z)
      (weight : R) (callback_freq : Z) (tr : list event) :
  thresholds_used
    (snd (recon_step backend_reconstruct a_projs ws angles mesh thresh algorithm
            niter weight callback_freq tr))
  = thresholds_used tr ++ [thresh].
Proof.
  destruct mesh as [[p1 [[p2_0 p2_1] p2_2]] [[nn_0 nn_1] nn_2]].
  unfold recon_step, bindM, emit, lift, generate_reconstruction, astra_clear, ret.
  destruct (py_div p2_0 nn_0) as [res |]; simpl snd;
    [| now rewrite thresholds_used_app].
  destruct (threshold_loop a_projs angles thresh 0 ws) as [sel |]; simpl snd;
    [| now rewrite thresholds_used_app].
  destruct (transpose_102 (fst sel)) as [a_thresh |]; simpl snd;
    [| now rewrite thresholds_used_app].
  unfold bindM, emit, lift.
  destruct (backend_reconstruct a_thresh _ algorithm niter weight callback_freq)
    as [recon |]; simpl snd;
    rewrite !thresholds_used_app; simpl; now rewrite !app_nil_r.
Qed.

Lemma recon_xyz_trace (a_weighted : stack * stack * stack) (ws : list (R * R * R))
      (angles : list angle) (mesh : mesh_params) (thresh : R)
      (algorithm : string) (niter : Z) (weight : R) (callback_freq : Z)
      (tr tr' : list event) (out : volume * volume * volume) :
  recon_xyz backend_reconstruct a_weighted ws angles mesh thresh algorithm niter
    weight callback_freq tr = (Ok out, tr') ->
  thresholds_used tr' = thresholds_used tr ++ [thresh; thresh; thresh].
Proof.
  destruct a_weighted as [[sx sy] sz]. unfold recon_xyz. intros Hrun.
  apply bindM_ok in Hrun. destruct Hrun as (w0 & t0 & H0 & Hrun).
  apply lift_ok in H0. destruct H0 as [_ ->].
  apply bindM_ok in Hrun. destruct Hrun as (vx & t1 & Hx & Hrun).
  apply bindM_ok in Hrun. destruct Hrun as (w1 & t1' & H1 & Hrun).
  apply lift_ok in H1. destruct H1 as [_ ->].
  apply bindM_ok in Hrun. destruct Hrun as (vy & t2 & Hy & Hrun).
  apply bindM_ok in Hrun. destruct Hrun as (w2 & t2' & H2 & Hrun).
  apply lift_ok in H2. destruct H2 as [_ ->].
  apply bindM_ok in Hrun. destruct Hrun as (vz & t3 & Hz & Hrun).
  unfold ret in Hrun. injection Hrun as _ <-.
  pose proof (recon_step_trace sx w0 angles mesh thresh algorithm niter weight
                callback_freq tr) as Tx.
  rewrite Hx in Tx. simpl in Tx.
  pose proof (recon_step_trace sy w1 angles mesh thresh algorithm niter weight
                callback_freq t1) as Ty.
  rewrite Hy in Ty. simpl in Ty.
  pose proof (recon_step_trace sz w2 angles mesh thresh algorithm niter weight
                callback_freq t2) as Tz.
  rewrite Hz in Tz. simpl in Tz.
  rewrite Tz, Ty, Tx, <- !app_assoc. reflexivity.
Qed.

Lemma map_nth_seq (l : list R) (d : R) :
  map (fun i => nth i l d) (seq 0 (List.length l)) = l.
Proof.
  induction l as [| a l IH]; simpl.
  - reflexivity.
  - f_equal. rewrite <- seq_shift, map_map. exact IH.
Qed.

(** [l[-(i+1)]] is entry [i] of [l] read backwards. *)
Lemma py_getitem_from_end (l : list R) (i : nat) :
  (i < List.length l)%nat ->
  py_getitem l (- (Z.of_nat i + 1)) = Ok (nth i (rev l) 0).
Proof.
  intros Hi. unfold py_getitem.
  destruct (Z.ltb_spec (- (Z.of_nat i + 1)) 0); [| lia].
  set (k := (- (Z.of_nat i + 1) + Z.of_nat (List.length l))%Z).
  assert (Hk : Z.to_nat k = (List.length l - S i)%nat) by (subst k; lia).
  destruct (Z.leb_spec 0 k); [| subst k; lia].
  destruct (Z.ltb_spec k (Z.of_nat (List.length l))); [| subst k; lia].
  simpl andb. rewrite Hk, rev_nth by exact Hi.
  rewrite (nth_error_nth' l 0) by lia. reflexivity.
Qed.

Lemma Forall2_map_seq {A B : Type} (P : A -> B -> Prop) (f : nat -> A)
      (g : nat -> B) (a n : nat) :
  (forall i, (a <= i < a + n)%nat -> P (f i) (g i)) ->
  Forall2 P (map f (seq a n)) (map g (seq a n)).
Proof.
  revert a. induction n as [| n IH]; intros a Hall; simpl.
  - constructor.
  - constructor; [apply Hall; lia | apply IH; intros i Hi; apply Hall; lia].
Qed.

(** The thresholds read by the loop over [range(len(possible_ts))] are the
    entries of [possible_ts] from the last to the first. *)
Lemma loop_reads_backwards (possible_ts : list R) :
  Forall2 (fun i t => py_getitem possible_ts (- (i + 1)) = Ok t)
          (range (Z.of_nat (List.length possible_ts))) (rev possible_ts).
Proof.
  unfold range. rewrite Nat2Z.id.
  rewrite <- (map_nth_seq (rev possible_ts) 0) at 1.
  rewrite length_rev.
  apply Forall2_map_seq. intros i Hi. apply py_getitem_from_end. lia.
Qed.

Lemma major_loop_trace (phase_projs : stack) (ws : list (R * R * R))
      (angles : list angle) (mesh : mesh_params) (n_pad : nat)
      (algorithm : string) (n_step_iter : Z) (weight : R) (callback_freq : Z)
      (possible_ts : list R) :
  forall idxs ts,
    Forall2 (fun i t => py_getitem possible_ts (- (i + 1)) = Ok t) idxs ts ->
    forall recon tr out tr',
      major_loop backend_reconstruct backend_forward_project flux_quantum
        phase_projs ws angles mesh n_pad algorithm n_step_iter weight
        callback_freq possible_ts idxs recon tr = (Ok out, tr') ->
      thresholds_used tr' = thresholds_used tr ++ thrice ts.
Proof.
  induction 1 as [| i t idxs ts Hit _ IH]; intros recon tr out tr' Hrun.
  - simpl in Hrun. unfold ret in Hrun. injection Hrun as _ <-.
    simpl. now rewrite app_nil_r.
  - simpl in Hrun. destruct recon as [[Ax Ay] Az].
    apply bindM_ok in Hrun. destruct Hrun as (th & t0 & Hth & Hrun).
    apply lift_ok in Hth. destruct Hth as [Hth ->].
    rewrite Hit in Hth. injection Hth as <-.
    apply bindM_ok in Hrun. destruct Hrun as (proj & t1 & Hproj & Hrun).
    unfold generate_A_projection_fast in Hproj.
    apply bindM_ok in Hproj. destruct Hproj as ([] & t1' & Hemit & Hproj).
    unfold emit in Hemit. injection Hemit as <-.
    apply lift_ok in Hproj. destruct Hproj as [_ ->].
    destruct proj as [[sx sy] sz].
    apply bindM_ok in Hrun. destruct Hrun as (aw & t2 & Haw & Hrun).
    apply lift_ok in Haw. destruct Haw as [_ ->].
    apply bindM_ok in Hrun. destruct Hrun as (recon' & t3 & Hxyz & Hrun).
    apply recon_xyz_trace in Hxyz.
    apply bindM_ok in Hrun. destruct Hrun as ([] & t4 & Hclear & Hrun).
    unfold astra_clear, emit in Hclear. injection Hclear as <-.
    apply IH in Hrun. rewrite Hrun, thresholds_used_app, Hxyz, thresholds_used_app.
    simpl. rewrite !app_nil_r, <- !app_assoc. reflexivity.
Qed.

(** A run that returns has called [recon_step] three times per major
    iteration: first with [tmax], then with the entries of
    [np.linspace(tmin, tmax, n_full_iter-1)] from the last to the first. *)
Lemma run_thresholds (phase_projs : stack) (angles : list angle)
      (mesh : mesh_params) (n_pad : nat) (n_full_iter n_step_iter : Z)
      (algorithm : string) (weight tmin tmax : R) (callback : bool)
      (out : volume * volume * volume) (tr : list event) :
  iterative_update_algorithm backend_reconstruct backend_forward_project
    flux_quantum phase_projs angles mesh n_pad n_full_iter n_step_iter algorithm
    weight (tmin, tmax) callback [] = (Ok out, tr) ->
  exists sched,
    spec_schedule n_full_iter tmin tmax = Ok sched /\
    thresholds_used tr = thrice sched.
Proof.
  unfold iterative_update_algorithm, spec_schedule. intros Hrun.
  apply bindM_ok in Hrun. destruct Hrun as (possible_ts & t0 & Hts & Hrun).
  apply lift_ok in Hts. destruct Hts as [Hts ->].
  rewrite Hts. simpl bind. eexists. split; [reflexivity |].
  apply bindM_ok in Hrun. destruct Hrun as (aw & t1 & Haw & Hrun).
  apply lift_ok in Haw. destruct Haw as [_ ->].
  apply bindM_ok in Hrun. destruct Hrun as (recon & t2 & Hxyz & Hrun).
  apply recon_xyz_trace in Hxyz. simpl in Hxyz.
  assert (Hn : (0 <= n_full_iter - 1)%Z).
  { unfold AngleScheme.linspace in Hts.
    destruct (Z.ltb_spec (n_full_iter - 1) 0); [discriminate | assumption]. }
  destruct (linspace_length tmin tmax (n_full_iter - 1) Hn) as (l & Hl & Hlen).
  rewrite Hts in Hl. injection Hl as <-.
  assert (Hrange : range (n_full_iter - 1)
                   = range (Z.of_nat (List.length possible_ts))).
  { rewrite Hlen, Z2Nat.id by exact Hn. reflexivity. }
  rewrite Hrange in Hrun.
  apply (major_loop_trace _ _ _ _ _ _ _ _ _ _ _ _ (loop_reads_backwards possible_ts))
    in Hrun.
  rewrite Hrun, Hxyz. reflexivity.
Qed.

(** C2, at two major iterations: a run that returns has used [tmax] in the
    first major iteration and [tmin] in the second, since
    [np.linspace(tmin, tmax, 1)] is [tmin] alone. *)
Theorem two_major_iterations_thresholds (phase_projs : stack)
        (angles : list angle) (mesh : mesh_params) (n_pad : nat)
        (n_step_iter : Z) (algorithm : string) (weight tmin tmax : R)
        (callback : bool) (out : volume * volume * volume) (tr : list event) :
  iterative_update_algorithm backend_reconstruct backend_forward_project
    flux_quantum phase_projs angles mesh n_pad 2 n_step_iter algorithm
    weight (tmin, tmax) callback [] = (Ok out, tr) ->
  thresholds_used tr = [tmax; tmax; tmax; tmin; tmin; tmin].
Proof.
  intros Hrun. apply run_thresholds in Hrun.
  destruct Hrun as (sched & Hs & ->).
  unfold spec_schedule in Hs. simpl in Hs. injection Hs as <-. reflexivity.
Qed.

End ReconstructorFacts.

(** ** Runs that return *)

Section ThresholdSuccess.

Import Arrays.
Context {T : Type} `{Scalar T}.

(** With a slice and an angle for every weight, the thresholding loop
    returns. *)
Lemma threshold_loop_ok {Ang : Type} (a_projs : array3 T) (angles : list Ang)
      (thresh : T) (ws : list T) :
  forall i,
    (i + List.length ws <= dim1 a_projs)%nat ->
    (i + List.length ws <= List.length angles)%nat ->
    exists sel, threshold_loop a_projs angles thresh i ws = Ok sel.
Proof.
  induction ws as [| w ws IH]; intros i Hd Ha; simpl in *.
  - eexists. reflexivity.
  - destruct (IH (S i)) as (rest & Hrest); [lia | lia |].
    destruct (sc_gtb (sc_abs w) thresh).
    + unfold slice_tilt. destruct (Nat.ltb_spec i (dim1 a_projs)); [| lia].
      simpl bind.
      destruct (nth_error angles i) as [a |] eqn:Hnth.
      * simpl bind. rewrite Hrest. simpl bind. eexists. reflexivity.
      * apply nth_error_None in Hnth. lia.
    + exists rest. exact Hrest.
Qed.

Lemma update_ok (flux : T) (phase a b c : array3 T) (ws : list (T * T * T)) :
  ws <> [] -> List.length ws = dim1 phase ->
  same_shape phase a -> same_shape phase b -> same_shape phase c ->
  exists nx ny nz,
    update_weighted_proj_data flux phase a b c ws = Ok (nx, ny, nz) /\
    same_shape phase nx /\ same_shape phase ny /\ same_shape phase nz.
Proof.
  intros Hne Hlen Ha Hb Hc.
  destruct (decontaminate_ok flux phase b c 1 2 0 ws Hne Hlen Hb Hc)
    as (nx & Ex & Sx & _).
  destruct (decontaminate_ok flux phase a c 0 2 1 ws Hne Hlen Ha Hc)
    as (ny & Ey & Sy & _).
  destruct (decontaminate_ok flux phase b a 1 0 2 ws Hne Hlen Hb Ha)
    as (nz & Ez & Sz & _).
  exists nx, ny, nz. split; [| auto].
  unfold update_weighted_proj_data. rewrite Ex, Ey, Ez. reflexivity.
Qed.

End ThresholdSuccess.

Section RunReturns.

Import Arrays Reconstructor.

Variable backend_reconstruct :
  stack -> list (list R) -> string -> Z -> R -> Z -> result volume.
Variable backend_forward_project :
  volume -> volume -> volume -> list angle -> mesh_params ->
  result (stack * stack * stack).
Variable flux_quantum : R.

Variable phase_projs : stack.
Variable angles : list angle.
Variables (p1 : R * R * R) (p2_0 p2_1 p2_2 nn_0 nn_1 nn_2 : R).
Variable n_pad : nat.
Variables (algorithm : string) (n_step_iter : Z) (weight : R) (callback_freq : Z).

Let mesh : mesh_params := (p1, (p2_0, p2_1, p2_2), (nn_0, nn_1, nn_2)).
Let ws : list (R * R * R) := Geometry.calculate_A_contributions angles.

(** The solver never fails. *)
Hypothesis solver_total :
  forall d v a n w c, exists vol, backend_reconstruct d v a n w c = Ok vol.

(** The projector never fails and, once padded, its stacks have the shape of
    the phase stack. *)
Hypothesis projector_total :
  forall X Y Z,
  exists sx sy sz,
    backend_forward_project X Y Z angles mesh = Ok (sx, sy, sz) /\
    same_shape phase_projs (pad n_pad sx) /\
    same_shape phase_projs (pad n_pad sy) /\
    same_shape phase_projs (pad n_pad sz).

Hypothesis voxels_nonzero : nn_0 <> 0.
Hypothesis some_angle : angles <> [].
Hypothesis slice_per_angle : List.length angles = dim1 phase_projs.

Lemma ws_length : List.length ws = List.length angles.
Proof. apply length_map. Qed.

Lemma ws_nonempty : ws <> [].
Proof.
  intros Hws. apply some_angle. apply length_zero_iff_nil.
  rewrite <- ws_length, Hws. reflexivity.
Qed.

Lemma recon_step_ok (a_projs : stack) (k : nat) (thresh : R) (tr : list event) :
  (k < 3)%nat -> leaves_an_angle angles thresh -> same_shape phase_projs a_projs ->
  exists v tr',
    recon_step backend_reconstruct a_projs (map (weight_k k) ws) angles mesh
      thresh algorithm n_step_iter weight callback_freq tr = (Ok v, tr').
Proof.
  intros Hk Hleave (_ & Hs1 & _).
  destruct (Hleave k Hk) as (j & Hj & Hgt).
  assert (Hlen : List.length (map (weight_k k) ws) = List.length angles)
    by (rewrite length_map; apply ws_length).
  destruct (threshold_loop_ok a_projs angles thresh (map (weight_k k) ws) 0)
    as (sel & Hsel); [lia | lia |].
  destruct (threshold_loop_kept _ _ _ _ _ _ Hsel) as (_ & Hkl).
  assert (Hin : In (0 + j)%nat (kept_indices thresh 0 (map (weight_k k) ws))).
  { apply kept_indices_complete; [lia |].
    rewrite nth_map_weight. simpl.
    destruct (Rlt_dec thresh (Rabs (nth_weight k j ws))); [reflexivity | contradiction]. }
  destruct (fst sel) as [| s0 ss] eqn:Hfst.
  { simpl in Hkl. symmetry in Hkl. apply length_zero_iff_nil in Hkl.
    rewrite Hkl in Hin. contradiction. }
  unfold recon_step, bindM, emit, lift, mesh, py_div.
  destruct (Req_dec_T nn_0 0); [contradiction |].
  rewrite Hsel, Hfst. simpl transpose_102. cbv iota beta.
  unfold generate_reconstruction, bindM, emit, lift.
  match goal with
  | |- context [backend_reconstruct ?d ?v ?a ?n ?w ?c] =>
    destruct (solver_total d v a n w c) as (vol & ->)
  end.
  unfold astra_clear, emit, ret. eexists. eexists. reflexivity.
Qed.

Lemma recon_xyz_ok (sx sy sz : stack) (thresh : R) (tr : list event) :
  leaves_an_angle angles thresh ->
  same_shape phase_projs sx -> same_shape phase_projs sy ->
  same_shape phase_projs sz ->
  exists out tr',
    recon_xyz backend_reconstruct (sx, sy, sz) ws angles mesh thresh algorithm
      n_step_iter weight callback_freq tr = (Ok out, tr').
Proof.
  intros Hleave Hx Hy Hz. unfold recon_xyz.
  assert (Hcol : forall k, ws_column k ws = Ok (map (weight_k k) ws)).
  { intros k. pose proof ws_nonempty as Hne. unfold ws_column.
    destruct ws; [congruence | reflexivity]. }
  unfold bindM, lift. rewrite !Hcol.
  destruct (recon_step_ok sx 0 thresh tr) as (vx & t1 & ->); auto.
  destruct (recon_step_ok sy 1 thresh t1) as (vy & t2 & ->); auto.
  destruct (recon_step_ok sz 2 thresh t2) as (vz & t3 & ->); auto.
  unfold ret. eexists. eexists. reflexivity.
Qed.

Lemma returns_bind {A B : Type} (m : M A) (k : A -> M B) (tr : list event) :
  (exists a tr1, m tr = (Ok a, tr1) /\ returns (k a) tr1) ->
  returns (bindM m k) tr.
Proof.
  intros (a & tr1 & Hm & b & tr' & Hk). exists b, tr'.
  unfold bindM. rewrite Hm. exact Hk.
Qed.

Lemma major_loop_ok (possible_ts : list R) :
  forall idxs ts,
    Forall2 (fun i t => py_getitem possible_ts (- (i + 1)) = Ok t) idxs ts ->
    Forall (leaves_an_angle angles) ts ->
    forall recon tr,
      returns
        (major_loop backend_reconstruct backend_forward_project flux_quantum
           phase_projs ws angles mesh n_pad algorithm n_step_iter weight
           callback_freq possible_ts idxs recon) tr.
Proof.
  induction 1 as [| i t idxs ts Hit _ IH]; intros Hall recon tr.
  - exists recon, tr. reflexivity.
  - apply Forall_cons_iff in Hall. destruct Hall as [Ht Hts].
    destruct recon as [[Ax Ay] Az]. simpl major_loop.
    apply returns_bind. exists t, tr. split.
    { unfold lift. now rewrite Hit. }
    destruct (projector_total (unpad n_pad Ax) (unpad n_pad Ay) (unpad n_pad Az))
      as (sx & sy & sz & Hp & Hsx & Hsy & Hsz).
    apply returns_bind.
    exists (sx, sy, sz), (tr ++ [BackendForwardProject angles]). split.
    { unfold generate_A_projection_fast, bindM, emit, lift. now rewrite Hp. }
    destruct (update_ok flux_quantum phase_projs (pad n_pad sx) (pad n_pad sy)
                (pad n_pad sz) ws ws_nonempty)
      as (nx & ny & nz & Hu & Hnx & Hny & Hnz); auto.
    { rewrite ws_length. exact slice_per_angle. }
    apply returns_bind.
    exists (nx, ny, nz), (tr ++ [BackendForwardProject angles]). split.
    { unfold lift. now rewrite Hu. }
    destruct (recon_xyz_ok nx ny nz t (tr ++ [BackendForwardProject angles])
                Ht Hnx Hny Hnz) as (recon' & t1 & Hx).
    apply returns_bind. exists recon', t1. split; [exact Hx |].
    apply returns_bind. exists tt, (t1 ++ [BackendClear]). split; [reflexivity |].
    apply IH. exact Hts.
Qed.

(** With a total backend, a slice per angle and thresholds that always leave
    each component an angle, the algorithm returns. *)
Lemma run_returns (n_full_iter : Z) (tmin tmax : R) (callback : bool)
      (sched : list R) :
  callback_freq = (if callback then 1%Z else 0%Z) ->
  spec_schedule n_full_iter tmin tmax = Ok sched ->
  Forall (leaves_an_angle angles) sched ->
  returns
    (iterative_update_algorithm backend_reconstruct backend_forward_project
       flux_quantum phase_projs angles mesh n_pad n_full_iter n_step_iter
       algorithm weight (tmin, tmax) callback) [].
Proof.
  intros Hcb Hsched Hall. unfold spec_schedule in Hsched.
  destruct (AngleScheme.linspace tmin tmax (AngleScheme.PyInt (n_full_iter - 1)))
    as [possible_ts |] eqn:Hts; [| discriminate].
  simpl in Hsched. injection Hsched as <-.
  apply Forall_cons_iff in Hall. destruct Hall as [Hmax Hrest].
  assert (Hn : (0 <= n_full_iter - 1)%Z).
  { unfold AngleScheme.linspace in Hts.
    destruct (Z.ltb_spec (n_full_iter - 1) 0); [discriminate | assumption]. }
  destruct (linspace_length tmin tmax (n_full_iter - 1) Hn) as (l & Hl & Hlen).
  rewrite Hts in Hl. injection Hl as <-.
  unfold iterative_update_algorithm.
  apply returns_bind. exists possible_ts, []. split.
  { unfold lift. now rewrite Hts. }
  destruct (update_ok flux_quantum phase_projs (zeros_like phase_projs)
              (zeros_like phase_projs) (zeros_like phase_projs) ws ws_nonempty)
    as (nx & ny & nz & Hu & Hnx & Hny & Hnz); try (repeat split).
  { rewrite ws_length. exact slice_per_angle. }
  apply returns_bind. exists (nx, ny, nz), []. split.
  { unfold lift. fold ws. now rewrite Hu. }
  destruct (recon_xyz_ok nx ny nz tmax [] Hmax Hnx Hny Hnz) as (recon & t1 & Hxyz).
  apply returns_bind. exists recon, t1. split.
  { rewrite <- Hcb. exact Hxyz. }
  replace (range (n_full_iter - 1))
    with (range (Z.of_nat (List.length possible_ts)))
    by (rewrite Hlen, Z2Nat.id by exact Hn; reflexivity).
  rewrite <- Hcb.
  apply (major_loop_ok possible_ts _ _ (loop_reads_backwards possible_ts) Hrest).
Qed.

End RunReturns.

(** ** Sample runs *)

Section SampleRuns.

Import Arrays Reconstructor.

Lemma axis_weights :
  Geometry.calculate_A_contributions Samples.axis_angles
  = [(0, 0, 1); (0, 1, 0); (-1, 0, 0)].
Proof.
  change (Geometry.calculate_A_contributions Samples.axis_angles)
    with (Geometry.calculate_A_contributions [(0, 0, 0)]
          ++ Geometry.calculate_A_contributions [(90, 0, 0)]
          ++ Geometry.calculate_A_contributions [(0, 90, 0)]).
  rewrite !weight_triple_closed_form, quarter_turn.
  replace (Geometry.radians 0) with 0 by (unfold Geometry.radians; field).
  rewrite sin_0, cos_0, sin_PI2, cos_PI2. simpl app.
  repeat (apply f_equal2; [repeat (apply f_equal2); ring |]). reflexivity.
Qed.

(** Below threshold 1 each component keeps the angle that shows it in full. *)
Lemma axis_angles_leave (t : R) : t < 1 -> leaves_an_angle Samples.axis_angles t.
Proof.
  intros Ht k Hk. unfold nth_weight. rewrite axis_weights.
  destruct k as [| [| [| k]]]; [exists 2%nat | exists 1%nat | exists 0%nat | lia];
    (split; [simpl; lia |]); simpl.
  - rewrite Rabs_left by lra. lra.
  - rewrite Rabs_R1. exact Ht.
  - rewrite Rabs_R1. exact Ht.
Qed.

Lemma sample_run_returns :
  returns
    (iterative_update_algorithm Samples.still_solver Samples.blank_projector
       Samples.flux_quantum_r Samples.cube_phase Samples.axis_angles
       Samples.cube_mesh 1 2 10 "SIRT3D_CUDA" (1 / 1000) (1 / 100, 7 / 10) false)
    [].
Proof.
  apply (run_returns Samples.still_solver Samples.blank_projector
           Samples.flux_quantum_r Samples.cube_phase Samples.axis_angles
           (0, 0, 0) 3 3 3 3 3 3 1 "SIRT3D_CUDA" 10 (1 / 1000) 0)
    with (sched := [7 / 10; 1 / 100]).
  - intros. eexists. reflexivity.
  - intros. eexists. eexists. eexists. split; [reflexivity |].
    repeat split.
  - lra.
  - discriminate.
  - reflexivity.
  - reflexivity.
  - reflexivity.
  - repeat constructor; apply axis_angles_leave; lra.
Qed.

End SampleRuns.

Lemma two_major_iterations_thresholds_witness :
  exists out tr,
    Reconstructor.iterative_update_algorithm Samples.still_solver
      Samples.blank_projector Samples.flux_quantum_r Samples.cube_phase
      Samples.axis_angles Samples.cube_mesh 1 2 10 "SIRT3D_CUDA" (1 / 1000)
      (1 / 100, 7 / 10) false [] = (Ok out, tr) /\
    Reconstructor.thresholds_used tr
    = [7 / 10; 7 / 10; 7 / 10; 1 / 100; 1 / 100; 1 / 100].
Proof.
  destruct sample_run_returns as (out & tr & Hrun).
  exists out, tr. split; [exact Hrun |].
  exact (two_major_iterations_thresholds Samples.still_solver
           Samples.blank_projector Samples.flux_quantum_r Samples.cube_phase
           Samples.axis_angles Samples.cube_mesh 1 10 "SIRT3D_CUDA" (1 / 1000)
           (1 / 100) (7 / 10) false out tr Hrun).
Defined.

Lemma recon_step_empty_selection_fails_witness :
  exists e tr',
    Reconstructor.recon_step Samples.still_solver (Samples.unit_stack 1) [1 / 2]
      [(0, 0, 0)] ((0, 0, 0), (1, 1, 1), (1, 1, 1)) (7 / 10)
      "SIRT3D_CUDA" 40 (1 / 1000) 0 [] = (Err e, tr') /\
    (e = ValueError \/ e = ZeroDivisionError) /\
    Reconstructor.backend_calls tr' = Reconstructor.backend_calls [].
Proof.
  apply (recon_step_empty_selection_fails Samples.still_solver
           (Samples.unit_stack 1) [1 / 2] [(0, 0, 0)]
           ((0, 0, 0), (1, 1, 1), (1, 1, 1)) (7 / 10)
           "SIRT3D_CUDA" 40 (1 / 1000) 0 []).
  intros w [<- | []]. rewrite Rabs_pos_eq; lra.
Defined.

(** ** Shape of the threshold schedule *)

Section ScheduleFacts.

Import Reconstructor.

Lemma schedule_at_two (tmin tmax : R) :
  spec_schedule 2 tmin tmax = Ok [tmax; tmin].
Proof. reflexivity. Qed.

Lemma descending_samples (f : nat -> R) (n : nat) :
  (forall i, f i <= f (S i)) ->
  non_increasing (map f (rev (seq 0 n))).
Proof.
  intros Hf. induction n as [| n IH].
  - constructor.
  - rewrite seq_S, rev_app_distr. simpl.
    constructor; [exact IH |].
    destruct n as [| n]; [constructor |].
    rewrite seq_S, rev_app_distr. simpl. constructor. apply Hf.
Qed.

(** From three major iterations on, [np.linspace] has both end points. *)
Lemma linspace_two_or_more (start stop : R) (k : nat) :
  AngleScheme.linspace start stop (AngleScheme.PyInt (Z.of_nat (S (S k))))
  = Ok (map (fun i => INR i * ((stop - start) / INR (S k)) + start) (seq 0 (S k))
        ++ [stop]).
Proof.
  unfold AngleScheme.linspace.
  destruct (Z.ltb_spec (Z.of_nat (S (S k))) 0); [lia |].
  rewrite Nat2Z.id. reflexivity.
Qed.

Lemma schedule_from_three (k : nat) (tmin tmax : R) :
  exists sched,
    spec_schedule (Z.of_nat (S (S (S k)))) tmin tmax = Ok sched /\
    List.length sched = S (S (S k)) /\
    nth 0 sched 0 = tmax /\ nth 1 sched 0 = tmax /\ last sched 0 = tmin.
Proof.
  unfold spec_schedule.
  replace (Z.of_nat (S (S (S k))) - 1)%Z with (Z.of_nat (S (S k))) by lia.
  rewrite linspace_two_or_more.
  set (f := fun i : nat => INR i * ((tmax - tmin) / INR (S k)) + tmin).
  assert (E : rev (map f (seq 0 (S k)) ++ [tmax])
              = tmax :: rev (map f (seq 1 k)) ++ [f 0%nat]).
  { rewrite rev_app_distr. reflexivity. }
  exists (tmax :: tmax :: rev (map f (seq 1 k)) ++ [f 0%nat]).
  split; [| split; [| split; [| split]]].
  - unfold bind. now rewrite E.
  - simpl. rewrite length_app, length_rev, length_map, length_seq. simpl. lia.
  - reflexivity.
  - reflexivity.
  - change (tmax :: tmax :: rev (map f (seq 1 k)) ++ [f 0%nat])
      with (([tmax; tmax] ++ rev (map f (seq 1 k))) ++ [f 0%nat]).
    rewrite last_last. unfold f. simpl INR. ring.
Qed.

(** With [tmin <= tmax] the thresholds never go up, whatever the number of
    major iterations. *)
Lemma schedule_non_increasing (n_full_iter : Z) (tmin tmax : R) (sched : list R) :
  tmin <= tmax ->
  spec_schedule n_full_iter tmin tmax = Ok sched ->
  non_increasing sched.
Proof.
  intros Hle. unfold spec_schedule.
  destruct (Z.ltb_spec (n_full_iter - 1) 0) as [Hneg | Hnn].
  { unfold AngleScheme.linspace.
    destruct (Z.ltb_spec (n_full_iter - 1) 0); [discriminate | lia]. }
  rewrite <- (Z2Nat.id (n_full_iter - 1)) by exact Hnn.
  destruct (Z.to_nat (n_full_iter - 1)) as [| [| k]].
  - intros [= <-]. constructor; constructor.
  - intros [= <-]. constructor; [constructor; constructor | constructor; exact Hle].
  - rewrite linspace_two_or_more.
    set (f := fun i : nat => INR i * ((tmax - tmin) / INR (S k)) + tmin).
    assert (E : rev (map f (seq 0 (S k)) ++ [tmax])
                = tmax :: map f (rev (seq 0 (S k)))).
    { rewrite rev_app_distr, map_rev. reflexivity. }
    unfold bind. rewrite E. intros Hs.
    assert (Es : sched = tmax :: tmax :: map f (rev (seq 0 (S k)))) by congruence.
    rewrite Es. clear Hs Es E.
    assert (Hpos : 0 < INR (S k)) by (apply lt_0_INR; lia).
    assert (Hstep : 0 <= (tmax - tmin) / INR (S k)).
    { apply Rmult_le_pos; [lra |]. apply Rlt_le, Rinv_0_lt_compat, Hpos. }
    assert (Hspan : INR (S k) * ((tmax - tmin) / INR (S k)) = tmax - tmin)
      by (field; lra).
    set (step := (tmax - tmin) / INR (S k)) in *.
    rewrite S_INR in Hspan.
    constructor; [constructor |].
    + apply descending_samples. intros i. unfold f. rewrite (S_INR i). nra.
    + rewrite seq_S, rev_app_distr. simpl. constructor.
      unfold f. nra.
    + constructor. lra.
Qed.

End ScheduleFacts.

(** ** Worked examples *)

Section WorkedExamples.

Import Arrays.

(** With no rotation the ray runs along -z and the detector axes are x and y. *)
Example astravec_at_origin :
  Geometry.get_astravec 0 0 0 = [0; 0; -1; 0; 0; 0; 1; 0; 0; 0; 1; 0].
Proof.
  cbv [Geometry.get_astravec Geometry.rotation_matrix Geometry.mdot
       Geometry.mdotv Geometry.dot1 Geometry.column Geometry.radians
       map combine fold_right seq List.length hd nth fst snd app].
  replace (- 0 * PI / 180) with 0 by field.
  replace (0 * PI / 180) with 0 by field.
  rewrite sin_0, cos_0.
  repeat (apply f_equal2; [ring |]). reflexivity.
Qed.

(** One sample is the start alone; this is why two major iterations end on
    [tmin]. *)
Example linspace_of_one :
  AngleScheme.linspace (1 / 100) (7 / 10) (AngleScheme.PyInt 1) = Ok [1 / 100].
Proof. reflexivity. Qed.

Example x_scheme_of_three :
  AngleScheme.generate_angles (fun _ => 0) "x" 3 70 40 180 8 "gamma"
  = Ok [(-70, 0, 0); (0, 0, 0); (70, 0, 0)].
Proof.
  cbv [AngleScheme.generate_angles AngleScheme.when AngleScheme.mode_x
       AngleScheme.x_series AngleScheme.linspace bind String.eqb Ascii.eqb
       Bool.eqb Z.ltb Z.compare Z.to_nat Pos.to_nat Pos.iter_op Nat.add
       map seq app INR].
  repeat (apply f_equal2 || apply f_equal); try reflexivity; field.
Qed.

(** The beam-axis sample in binary64: the x and y slices come out infinite,
    the z slice finite. *)
Example axial_sample_values :
  match update_weighted_proj_data Samples.flux_quantum_f
          (Samples.unit_stack 1%float) (Samples.unit_stack 0%float)
          (Samples.unit_stack 0%float) (Samples.unit_stack 0%float)
          Samples.axial_weights with
  | Ok (nx, ny, nz) =>
    (is_infinity (get3 nx 0 0 0), is_infinity (get3 ny 0 0 0),
     is_finite (get3 nz 0 0 0))
  | Err _ => (false, false, false)
  end = (true, true, true).
Proof. vm_compute. reflexivity. Qed.

(** Without any angle the weight array has one axis only and the step
    raises. *)
Example no_angle_is_rejected :
  update_weighted_proj_data Samples.flux_quantum_r (Samples.unit_stack 1)
    (Samples.unit_stack 0) (Samples.unit_stack 0) (Samples.unit_stack 0) []
  = Err IndexError.
Proof. reflexivity. Qed.

(** Mode [dist] with the default parameters gives 5 x 8 = 40 angles. *)
Example dist_default_length :
  exists angles,
    AngleScheme.generate_angles (fun _ => 0) "dist" 40 70 40 180 8 "gamma"
    = Ok angles /\ List.length angles = 40%nat.
Proof.
  unfold AngleScheme.generate_angles. simpl AngleScheme.when. simpl bind.
  unfold AngleScheme.mode_dist, AngleScheme.int_div. simpl bind.
  destruct (Req_dec_T 70 90); [lra |].
  destruct (Rlt_dec 180 90); [lra |].
  destruct (Rle_dec 90 180); [| lra].
  simpl. eexists. split; reflexivity.
Qed.

End WorkedExamples.

(** * Further properties of the source *)

(** ** Weights, beam direction and the two rotation conventions *)

Section MoreGeometry.

Import Geometry Arrays.

Ltac eval_rotation :=
  cbv [calculate_A_contributions get_astravec rotation_matrix mdot mdotv dot1
       column map combine fold_right seq List.length hd nth fst snd app
       radians ray_of firstn skipn VectorField.identity3].

Ltac split_entries :=
  repeat match goal with
         | |- @cons _ _ _ = @cons _ _ _ => apply f_equal2
         | |- @pair _ _ _ _ = @pair _ _ _ _ => apply f_equal2
         | |- @nil _ = @nil _ => reflexivity
         end.

Lemma radians_opp (a : R) : - a * PI / 180 = - (a * PI / 180).
Proof. field. Qed.

Lemma square_bound (x s : R) : x * x + s = 1 -> 0 <= s -> Rabs x <= 1.
Proof. intros Hs Hp. apply Rabs_le. nra. Qed.

Lemma triple_within_unit (ax ay az : R) :
  Forall (fun w => Rabs (weight_k 0 w) <= 1 /\ Rabs (weight_k 1 w) <= 1 /\
                   Rabs (weight_k 2 w) <= 1)
         (calculate_A_contributions [(ax, ay, az)]).
Proof.
  rewrite weight_triple_closed_form. constructor; [| constructor].
  pose proof (closed_form_normalised ax ay) as Hn. unfold sumsq in Hn.
  simpl weight_k.
  set (wx := - sin (radians ay)) in *.
  set (wy := cos (radians ay) * sin (radians ax)) in *.
  set (wz := cos (radians ax) * cos (radians ay)) in *.
  repeat split.
  - apply (square_bound wx (wy * wy + wz * wz)); nra.
  - apply (square_bound wy (wx * wx + wz * wz)); nra.
  - apply (square_bound wz (wx * wx + wy * wy)); nra.
Qed.

(** Every weight lies between -1 and 1. *)
Theorem weights_within_unit (angles : list (R * R * R)) :
  Forall (fun w => Rabs (weight_k 0 w) <= 1 /\ Rabs (weight_k 1 w) <= 1 /\
                   Rabs (weight_k 2 w) <= 1)
         (calculate_A_contributions angles).
Proof.
  induction angles as [| [[ax ay] az] angles IH].
  - constructor.
  - rewrite contributions_cons. apply Forall_app. split; [| exact IH].
    apply triple_within_unit.
Qed.

Lemma two_above_impossible (a b c t : R) :
  a * a + b * b + c * c = 1 -> 0 <= t -> 1 / 2 <= t * t ->
  t < Rabs a -> t < Rabs b -> False.
Proof.
  intros Hn Ht Hh Ha Hb.
  assert (Ea : Rabs a * Rabs a = a * a).
  { rewrite <- Rabs_mult. apply Rabs_pos_eq. nra. }
  assert (Eb : Rabs b * Rabs b = b * b).
  { rewrite <- Rabs_mult. apply Rabs_pos_eq. nra. }
  nra.
Qed.

Lemma nth_weight_closed_form (angles : list (R * R * R)) (j : nat) :
  (j < List.length angles)%nat ->
  exists ax ay,
    nth j (calculate_A_contributions angles) (sc_zero, sc_zero, sc_zero)
    = (- sin (radians ay), cos (radians ay) * sin (radians ax),
       cos (radians ax) * cos (radians ay)).
Proof.
  revert j. induction angles as [| [[ax ay] az] angles IH]; intros j Hj.
  - simpl in Hj. lia.
  - rewrite contributions_cons, weight_triple_closed_form.
    destruct j as [| j].
    + exists ax, ay. reflexivity.
    + simpl in Hj. destruct (IH j) as (ax' & ay' & E); [lia |].
      exists ax', ay'. exact E.
Qed.

(** Once the threshold is at least 1/sqrt 2, the loop of [recon_step] never
    keeps one angle for two different components. *)
Theorem one_component_per_angle (angles : list (R * R * R)) (t : R)
        (k1 k2 j : nat) :
  0 <= t -> 1 / 2 <= t * t ->
  (k1 < 3)%nat -> (k2 < 3)%nat ->
  In j (kept_indices t 0 (map (weight_k k1) (calculate_A_contributions angles))) ->
  In j (kept_indices t 0 (map (weight_k k2) (calculate_A_contributions angles))) ->
  k1 = k2.
Proof.
  intros Ht Hh Hk1 Hk2 H1 H2.
  apply kept_indices_sound in H1. destruct H1 as (_ & Hj & G1).
  apply kept_indices_sound in H2. destruct H2 as (_ & _ & G2).
  rewrite length_map in Hj. unfold calculate_A_contributions in Hj.
  rewrite length_map in Hj. simpl in Hj.
  rewrite Nat.sub_0_r, nth_map_weight in G1, G2.
  unfold nth_weight in G1, G2.
  destruct (nth_weight_closed_form angles j Hj) as (ax & ay & E).
  rewrite E in G1, G2.
  pose proof (closed_form_normalised ax ay) as Hn. unfold sumsq in Hn.
  set (wx := - sin (radians ay)) in *.
  set (wy := cos (radians ay) * sin (radians ax)) in *.
  set (wz := cos (radians ax) * cos (radians ay)) in *.
  simpl sc_gtb in G1, G2. simpl sc_abs in G1, G2.
  destruct k1 as [| [| [| k1]]]; [| | | lia];
    destruct k2 as [| [| [| k2]]]; try lia; try reflexivity;
      simpl weight_k in G1, G2;
      match type of G1 with
      | (if Rlt_dec t (Rabs ?a) then _ else _) = _ =>
        destruct (Rlt_dec t (Rabs a)) as [La |]; [| discriminate]
      end;
      match type of G2 with
      | (if Rlt_dec t (Rabs ?b) then _ else _) = _ =>
        destruct (Rlt_dec t (Rabs b)) as [Lb |]; [| discriminate]
      end;
      exfalso.
  - apply (two_above_impossible wx wy wz t); auto.
  - apply (two_above_impossible wx wz wy t); auto; nra.
  - apply (two_above_impossible wy wx wz t); auto; nra.
  - apply (two_above_impossible wy wz wx t); auto; nra.
  - apply (two_above_impossible wz wx wy t); auto; nra.
  - apply (two_above_impossible wz wy wx t); auto; nra.
Qed.

(** The weight triple of an angle is its ray direction with the x and z
    components negated. *)
Theorem ray_direction_from_weights (ax ay az : R) :
  exists wx wy wz,
    calculate_A_contributions [(ax, ay, az)] = [(wx, wy, wz)] /\
    ray_of (get_astravec ax ay az) = [- wx; wy; - wz].
Proof.
  do 3 eexists. split; [apply weight_triple_closed_form |].
  eval_rotation. rewrite radians_opp, sin_neg, cos_neg.
  split_entries; ring.
Qed.

(** The extrinsic matrix at the negated angles undoes the intrinsic one. *)
Theorem extrinsic_inverts_intrinsic (ax ay az : R) :
  mdot (rotation_matrix ax ay az true)
       (rotation_matrix (- ax) (- ay) (- az) false) = VectorField.identity3 /\
  mdot (rotation_matrix (- ax) (- ay) (- az) false)
       (rotation_matrix ax ay az true) = VectorField.identity3.
Proof.
  split; eval_rotation; rewrite !radians_opp, !sin_neg, !cos_neg;
    generalize (sin_cos_sq (ax * PI / 180)) (sin_cos_sq (ay * PI / 180))
               (sin_cos_sq (az * PI / 180));
    generalize (sin (ax * PI / 180)) (cos (ax * PI / 180))
               (sin (ay * PI / 180)) (cos (ay * PI / 180))
               (sin (az * PI / 180)) (cos (az * PI / 180));
    intros; split_entries; nsatz.
Qed.

End MoreGeometry.

(** ** Vector fields on a grid *)

Section VectorFieldFacts.

Import Geometry Arrays VectorField.

Lemma collect_ok {A : Type} (idx : list nat) (body : nat -> result (list A))
      (f : nat -> list A) :
  (forall i, In i idx -> body i = Ok (f i)) ->
  collect idx body = Ok (flat_map f idx).
Proof.
  induction idx as [| i idx IH]; intros Hall; simpl.
  - reflexivity.
  - rewrite (Hall i) by (now left). simpl.
    rewrite IH by (intros j Hj; apply Hall; now right). reflexivity.
Qed.

Lemma collect_err {A : Type} (idx : list nat) (body : nat -> result (list A))
      (e : py_error) :
  (exists i, In i idx /\ body i = Err e) ->
  (forall i, In i idx -> body i = Err e \/ exists x, body i = Ok x) ->
  collect idx body = Err e.
Proof.
  induction idx as [| i idx IH]; intros (j & Hj & Ej) Hall.
  - contradiction.
  - simpl. destruct (Hall i (or_introl eq_refl)) as [E | (x & E)]; rewrite E.
    + reflexivity.
    + simpl. destruct Hj as [<- | Hj]; [rewrite E in Ej; discriminate |].
      rewrite IH; [reflexivity | now exists j |].
      intros i' Hi'. apply Hall. now right.
Qed.

Lemma flat_map_single {A B : Type} (g : A -> B) (l : list A) :
  flat_map (fun x => [g x]) l = map g l.
Proof. induction l as [| a l IH]; simpl; [| rewrite IH]; reflexivity. Qed.

Lemma length_flat_map_uniform {A B : Type} (f : A -> list B) (l : list A) (m : nat) :
  (forall x, In x l -> List.length (f x) = m) ->
  List.length (flat_map f l) = (List.length l * m)%nat.
Proof.
  induction l as [| a l IH]; intros Hall; simpl.
  - reflexivity.
  - rewrite length_app, (Hall a) by (now left).
    rewrite IH by (intros x Hx; apply Hall; now right). reflexivity.
Qed.

Lemma nth_flat_map_uniform {A B : Type} (f : A -> list B) (l : list A) (m : nat)
      (da : A) (db : B) :
  (forall x, In x l -> List.length (f x) = m) ->
  forall i j, (i < List.length l)%nat -> (j < m)%nat ->
    nth (i * m + j) (flat_map f l) db = nth j (f (nth i l da)) db.
Proof.
  induction l as [| a l IH]; intros Hall i j Hi Hj; simpl in Hi.
  - lia.
  - simpl flat_map. destruct i as [| i].
    + simpl. apply app_nth1. rewrite (Hall a) by (now left). exact Hj.
    + rewrite app_nth2 by (rewrite (Hall a) by (now left); simpl; lia).
      rewrite (Hall a) by (now left).
      replace (S i * m + j - m)%nat with (i * m + j)%nat by (simpl; lia).
      simpl nth. apply IH; [| lia | exact Hj].
      intros x Hx. apply Hall. now right.
Qed.

Lemma read3_ok (a : array3 R) (i j k : nat) :
  (i < dim0 a)%nat -> (j < dim1 a)%nat -> (k < dim2 a)%nat ->
  read3 a i j k = Ok (get3 a i j k).
Proof.
  intros Hi Hj Hk. unfold read3.
  destruct (Nat.ltb_spec i (dim0 a)); [| lia].
  destruct (Nat.ltb_spec j (dim1 a)); [| lia].
  destruct (Nat.ltb_spec k (dim2 a)); [| lia]. reflexivity.
Qed.

(** With [V] and [W] at least as large as [U], [grid_to_coor] returns the
    voxel rows. *)
Lemma grid_to_coor_ok (U V W : array3 R) :
  (dim0 U <= dim0 V)%nat -> (dim1 U <= dim1 V)%nat -> (dim2 U <= dim2 V)%nat ->
  (dim0 U <= dim0 W)%nat -> (dim1 U <= dim1 W)%nat -> (dim2 U <= dim2 W)%nat ->
  grid_to_coor U V W = Ok (voxel_rows U V W).
Proof.
  intros V0 V1 V2 W0 W1 W2. unfold grid_to_coor, voxel_rows.
  apply collect_ok. intros ix Hx. apply in_seq in Hx.
  apply collect_ok. intros iy Hy. apply in_seq in Hy.
  rewrite <- flat_map_single.
  apply collect_ok. intros iz Hz. apply in_seq in Hz.
  rewrite !read3_ok by lia. reflexivity.
Qed.

Lemma voxel_rows_length (U V W : array3 R) :
  List.length (voxel_rows U V W) = (dim0 U * dim1 U * dim2 U)%nat.
Proof.
  unfold voxel_rows.
  rewrite (length_flat_map_uniform _ _ (dim1 U * dim2 U)).
  - rewrite length_seq. lia.
  - intros ix _. rewrite (length_flat_map_uniform _ _ (dim2 U)).
    + now rewrite length_seq.
    + intros iy _. now rewrite length_map, length_seq.
Qed.

Lemma voxel_rows_nth (U V W : array3 R) (i j k : nat) :
  (i < dim0 U)%nat -> (j < dim1 U)%nat -> (k < dim2 U)%nat ->
  nth ((i * dim1 U + j) * dim2 U + k) (voxel_rows U V W) []
  = [get3 U i j k; get3 V i j k; get3 W i j k].
Proof.
  intros Hi Hj Hk. unfold voxel_rows.
  replace ((i * dim1 U + j) * dim2 U + k)%nat
    with (i * (dim1 U * dim2 U) + (j * dim2 U + k))%nat by lia.
  rewrite (nth_flat_map_uniform _ _ (dim1 U * dim2 U) 0%nat).
  - rewrite seq_nth by exact Hi. simpl Nat.add.
    rewrite (nth_flat_map_uniform _ _ (dim2 U) 0%nat).
    + rewrite seq_nth by exact Hj. simpl Nat.add.
      rewrite (nth_indep _ [] [get3 U i j 0%nat; get3 V i j 0%nat; get3 W i j 0%nat])
        by (now rewrite length_map, length_seq).
      rewrite (map_nth (fun iz => [get3 U i j iz; get3 V i j iz; get3 W i j iz])
                       (seq 0 (dim2 U)) 0%nat k).
      rewrite seq_nth by exact Hk. reflexivity.
    + intros iy _. now rewrite length_map, length_seq.
    + now rewrite length_seq.
    + exact Hk.
  - intros ix _. rewrite (length_flat_map_uniform _ _ (dim2 U)).
    + now rewrite length_seq.
    + intros iy _. now rewrite length_map, length_seq.
  - now rewrite length_seq.
  - nia.
Qed.

(** [grid_to_coor] lists the vectors voxel by voxel in C order: row
    [(ix*ny + iy)*nz + iz] is the vector stored at voxel [(ix, iy, iz)]. *)
Theorem grid_to_coor_rows (U V W : array3 R) :
  same_shape U V -> same_shape U W ->
  exists rows,
    grid_to_coor U V W = Ok rows /\
    List.length rows = (dim0 U * dim1 U * dim2 U)%nat /\
    forall i j k, (i < dim0 U)%nat -> (j < dim1 U)%nat -> (k < dim2 U)%nat ->
      nth ((i * dim1 U + j) * dim2 U + k) rows []
      = [get3 U i j k; get3 V i j k; get3 W i j k].
Proof.
  intros (V0 & V1 & V2) (W0 & W1 & W2).
  exists (voxel_rows U V W). split; [| split].
  - apply grid_to_coor_ok; lia.
  - apply voxel_rows_length.
  - intros. now apply voxel_rows_nth.
Qed.

End VectorFieldFacts.

Lemma grid_to_coor_rows_witness :
  exists rows,
    VectorField.grid_to_coor (Samples.unit_stack 1) (Samples.unit_stack 2)
      (Samples.unit_stack 3) = Ok rows /\
    List.length rows = (1 * 1 * 1)%nat /\
    forall i j k, (i < 1)%nat -> (j < 1)%nat -> (k < 1)%nat ->
      nth ((i * 1 + j) * 1 + k) rows [] = [1; 2; 3].
Proof.
  apply (grid_to_coor_rows (Samples.unit_stack 1) (Samples.unit_stack 2)
           (Samples.unit_stack 3)); repeat split.
Defined.

Section RotateVectorFacts.

Import Geometry Arrays VectorField.

Lemma for_each_ok {A B : Type} (f : A -> result B) (g : A -> B) (l : list A) :
  (forall a, In a l -> f a = Ok (g a)) -> for_each f l = Ok (map g l).
Proof.
  induction l as [| a l IH]; intros Hall; simpl.
  - reflexivity.
  - rewrite (Hall a) by (now left). simpl.
    rewrite IH by (intros x Hx; apply Hall; now right). reflexivity.
Qed.

Lemma for_each_err {A B : Type} (f : A -> result B) (e : py_error) (l : list A) :
  (exists a, In a l /\ f a = Err e) ->
  (forall a, In a l -> f a = Err e \/ exists b, f a = Ok b) ->
  for_each f l = Err e.
Proof.
  induction l as [| a l IH]; intros (x & Hx & Ex) Hall.
  - contradiction.
  - simpl. destruct (Hall a (or_introl eq_refl)) as [E | (b & E)]; rewrite E.
    + reflexivity.
    + simpl. destruct Hx as [<- | Hx]; [rewrite E in Ex; discriminate |].
      rewrite IH; [reflexivity | now exists x |].
      intros a' Ha'. apply Hall. now right.
Qed.

Lemma rotate_vector_ok (coor_flat : list (list R)) (ax ay az : R) :
  Forall (fun M => List.length M = 3%nat) coor_flat ->
  rotate_vector coor_flat ax ay az
  = Ok (map (mdotv (rotation_matrix ax ay az true)) coor_flat).
Proof.
  intros Hall. unfold rotate_vector. apply for_each_ok.
  intros M HM. rewrite Forall_forall in Hall. rewrite (Hall M HM). reflexivity.
Qed.

Lemma three_entries (M : list R) :
  List.length M = 3%nat -> exists x y z, M = [x; y; z].
Proof.
  destruct M as [| x [| y [| z [| t M]]]]; try discriminate.
  intros _. now exists x, y, z.
Qed.

(** The intrinsic matrix keeps dot products. *)
Lemma rotation_keeps_dot (ax ay az x y z x' y' z' : R) :
  dot1 (mdotv (rotation_matrix ax ay az true) [x; y; z])
       (mdotv (rotation_matrix ax ay az true) [x'; y'; z'])
  = dot1 [x; y; z] [x'; y'; z'].
Proof.
  cbv [rotation_matrix mdot mdotv dot1 column map combine fold_right seq
       List.length hd nth fst snd radians].
  generalize (sin_cos_sq (ax * PI / 180)) (sin_cos_sq (ay * PI / 180))
             (sin_cos_sq (az * PI / 180)).
  generalize (sin (ax * PI / 180)) (cos (ax * PI / 180))
             (sin (ay * PI / 180)) (cos (ay * PI / 180))
             (sin (az * PI / 180)) (cos (az * PI / 180)).
  intros. nsatz.
Qed.

(** [rotate_vector] returns exactly when every row has three entries, and
    then it keeps the number of rows and every dot product between rows, so
    lengths and angles of the vectors are unchanged. *)
Theorem rotate_vector_isometry (coor_flat : list (list R)) (ax ay az : R) :
  (Forall (fun M => List.length M = 3%nat) coor_flat ->
   exists out,
     rotate_vector coor_flat ax ay az = Ok out /\
     List.length out = List.length coor_flat /\
     forall i j,
       dot1 (nth i out []) (nth j out [])
       = dot1 (nth i coor_flat []) (nth j coor_flat [])) /\
  (~ Forall (fun M => List.length M = 3%nat) coor_flat ->
   rotate_vector coor_flat ax ay az = Err ValueError).
Proof.
  split.
  - intros Hall. eexists. split; [apply rotate_vector_ok, Hall |].
    split; [apply length_map |].
    intros i j.
    assert (Hrow : forall n,
               (n < List.length coor_flat)%nat ->
               exists x y z,
                 nth n coor_flat [] = [x; y; z] /\
                 nth n (map (mdotv (rotation_matrix ax ay az true)) coor_flat) []
                 = mdotv (rotation_matrix ax ay az true) [x; y; z]).
    { intros n Hn. rewrite Forall_forall in Hall.
      destruct (three_entries (nth n coor_flat [])) as (x & y & z & E).
      { apply Hall, nth_In, Hn. }
      exists x, y, z. split; [exact E |].
      rewrite (nth_indep _ [] (mdotv (rotation_matrix ax ay az true) []))
        by (now rewrite length_map).
      now rewrite map_nth, E. }
    assert (Hout : forall n,
               (List.length coor_flat <= n)%nat ->
               nth n coor_flat [] = [] /\
               nth n (map (mdotv (rotation_matrix ax ay az true)) coor_flat) [] = []).
    { intros n Hn. split; apply nth_overflow; [| rewrite length_map]; exact Hn. }
    destruct (Nat.lt_ge_cases i (List.length coor_flat)) as [Hi | Hi].
    + destruct (Hrow i Hi) as (x & y & z & -> & ->).
      destruct (Nat.lt_ge_cases j (List.length coor_flat)) as [Hj | Hj].
      * destruct (Hrow j Hj) as (x' & y' & z' & -> & ->).
        apply rotation_keeps_dot.
      * destruct (Hout j Hj) as (-> & ->). reflexivity.
    + destruct (Hout i Hi) as (-> & ->). reflexivity.
  - intros Hnot. unfold rotate_vector. apply for_each_err.
    + apply neg_Forall_Exists_neg in Hnot.
      * apply Exists_exists in Hnot. destruct Hnot as (M & HM & Hlen).
        exists M. split; [exact HM |].
        destruct (Nat.eqb_spec (List.length M) 3); [contradiction | reflexivity].
      * intros M. apply Nat.eq_dec.
    + intros M _. destruct (Nat.eqb_spec (List.length M) 3); eauto.
Qed.


(** With all three angles zero, [rotate_vector] changes nothing. *)
Theorem rotate_vector_zero_angles (coor_flat : list (list R)) :
  Forall (fun M => List.length M = 3%nat) coor_flat ->
  rotate_vector coor_flat 0 0 0 = Ok coor_flat.
Proof.
  intros Hall. rewrite rotate_vector_ok by exact Hall. f_equal.
  rewrite <- (map_id coor_flat) at 2. apply map_ext_in.
  intros M HM. rewrite Forall_forall in Hall.
  destruct (three_entries M (Hall M HM)) as (x & y & z & ->).
  cbv [rotation_matrix mdot mdotv dot1 column map combine fold_right seq
       List.length hd nth fst snd radians].
  replace (0 * PI / 180) with 0 by field. rewrite sin_0, cos_0.
  repeat (apply f_equal2; [ring |]). reflexivity.
Qed.

End RotateVectorFacts.

Lemma rotate_vector_zero_angles_witness :
  VectorField.rotate_vector [[1; 2; 3]; [0; -1; 4]] 0 0 0
  = Ok [[1; 2; 3]; [0; -1; 4]].
Proof.
  apply (rotate_vector_zero_angles [[1; 2; 3]; [0; -1; 4]]).
  repeat constructor.
Defined.

Section GridRoundTrip.

Import Geometry Arrays VectorField.

Variable round_cube_root : nat -> nat.

Lemma take_col_ok (k : nat) (rows : list (list R)) :
  rows <> [] -> Forall (fun M => List.length M = 3%nat) rows -> (k < 3)%nat ->
  take_col k rows = Ok (map (fun r => nth k r 0) rows).
Proof.
  intros Hne Hall Hk. destruct rows as [| r0 rows]; [congruence |].
  unfold take_col. rewrite Forall_forall in Hall.
  assert (H0 : List.length r0 = 3%nat) by (apply Hall; now left).
  assert (Hsame : forallb (fun r => (List.length r =? List.length r0)%nat)
                          (r0 :: rows) = true).
  { apply forallb_forall. intros r Hr. rewrite (Hall r Hr), H0. reflexivity. }
  rewrite Hsame, H0.
  destruct (Nat.ltb_spec k 3); [reflexivity | lia].
Qed.

(** Rows of three entries, as many as the shape has voxels, fold back into
    three grids whose voxel [(i,j,k)] reads row [(i*ny + j)*nz + k]. *)
Lemma coor_to_grid_ok (rows : list (list R)) (nx ny nz : nat) :
  rows <> [] -> Forall (fun M => List.length M = 3%nat) rows ->
  List.length rows = (nx * ny * nz)%nat ->
  exists U V W,
    coor_to_grid round_cube_root rows (Some (nx, ny, nz)) = Ok (U, V, W) /\
    (dim0 U, dim1 U, dim2 U) = (nx, ny, nz) /\
    (dim0 V, dim1 V, dim2 V) = (nx, ny, nz) /\
    (dim0 W, dim1 W, dim2 W) = (nx, ny, nz) /\
    forall i j k,
      [get3 U i j k; get3 V i j k; get3 W i j k]
      = map (fun c => nth c (nth ((i * ny + j) * nz + k) rows []) 0)
            [0%nat; 1%nat; 2%nat].
Proof.
  intros Hne Hall Hlen. unfold coor_to_grid.
  rewrite !take_col_ok by (auto; lia). simpl bind.
  unfold reshape3. rewrite !length_map, Hlen, Nat.eqb_refl. simpl bind.
  do 3 eexists. split; [reflexivity |]. repeat split.
  intros i j k. simpl get3. simpl map.
  repeat (apply f_equal2; [| try reflexivity]).
  - apply (map_nth (fun r => nth 0 r 0) rows []).
  - apply (map_nth (fun r => nth 1 r 0) rows []).
  - apply (map_nth (fun r => nth 2 r 0) rows []).
Qed.

Lemma voxel_rows_three (U V W : array3 R) :
  Forall (fun M => List.length M = 3%nat) (voxel_rows U V W).
Proof.
  apply Forall_forall. intros M HM. unfold voxel_rows in HM.
  apply in_flat_map in HM. destruct HM as (ix & _ & HM).
  apply in_flat_map in HM. destruct HM as (iy & _ & HM).
  apply in_map_iff in HM. destruct HM as (iz & <- & _). reflexivity.
Qed.

Lemma voxel_rows_nonempty (U V W : array3 R) :
  (0 < dim0 U * dim1 U * dim2 U)%nat -> voxel_rows U V W <> [].
Proof.
  intros Hpos Hnil. pose proof (voxel_rows_length U V W) as Hl.
  rewrite Hnil in Hl. simpl in Hl. lia.
Qed.

(** Flattening three equally shaped, non-empty grids and folding the rows back
    with the same shape gives the three grids again. *)
Theorem grid_coor_round_trip (U V W : array3 R) :
  same_shape U V -> same_shape U W ->
  (0 < dim0 U * dim1 U * dim2 U)%nat ->
  exists rows U' V' W',
    grid_to_coor U V W = Ok rows /\
    coor_to_grid round_cube_root rows (Some (dim0 U, dim1 U, dim2 U))
    = Ok (U', V', W') /\
    array3_eq U' U /\ array3_eq V' V /\ array3_eq W' W.
Proof.
  intros HV HW Hpos.
  destruct HV as (V0 & V1 & V2). destruct HW as (W0 & W1 & W2).
  destruct (coor_to_grid_ok (voxel_rows U V W) (dim0 U) (dim1 U) (dim2 U))
    as (U' & V' & W' & Hc & HdU & HdV & HdW & Hget).
  { now apply voxel_rows_nonempty. }
  { apply voxel_rows_three. }
  { apply voxel_rows_length. }
  exists (voxel_rows U V W), U', V', W'.
  split; [apply grid_to_coor_ok; lia |]. split; [exact Hc |].
  injection HdU as U0' U1' U2'. injection HdV as V0' V1' V2'.
  injection HdW as W0' W1' W2'.
  assert (Entry : forall i j k, (i < dim0 U)%nat -> (j < dim1 U)%nat ->
                                (k < dim2 U)%nat ->
            get3 U' i j k = get3 U i j k /\ get3 V' i j k = get3 V i j k /\
            get3 W' i j k = get3 W i j k).
  { intros i j k Hi Hj Hk. specialize (Hget i j k).
    rewrite voxel_rows_nth in Hget by assumption. simpl in Hget.
    injection Hget as -> -> ->. auto. }
  repeat split; try congruence; intros i j k Hi Hj Hk; apply Entry; congruence.
Qed.

(** An empty list of rows cannot be folded back, whatever the shape asked
    for: [np.take] finds no second axis. *)
Theorem coor_to_grid_empty (shape : option (nat * nat * nat)) :
  coor_to_grid round_cube_root [] shape = Err IndexError.
Proof.
  unfold coor_to_grid.
  destruct shape as [[[nx ny] nz] |]; reflexivity.
Qed.

Variable rotate_bulk : array3 R -> R -> R -> R -> array3 R.


End GridRoundTrip.

Lemma grid_coor_round_trip_witness :
  exists rows U' V' W',
    VectorField.grid_to_coor (Samples.unit_stack 1) (Samples.unit_stack 2)
      (Samples.unit_stack 3) = Ok rows /\
    VectorField.coor_to_grid (fun n => n) rows (Some (1%nat, 1%nat, 1%nat))
    = Ok (U', V', W') /\
    Arrays.array3_eq U' (Samples.unit_stack 1) /\
    Arrays.array3_eq V' (Samples.unit_stack 2) /\
    Arrays.array3_eq W' (Samples.unit_stack 3).
Proof.
  apply (grid_coor_round_trip (fun n => n) (Samples.unit_stack 1)
           (Samples.unit_stack 2) (Samples.unit_stack 3));
    [repeat split | repeat split | simpl; lia].
Defined.


(** ** More on angle schemes *)

Section MoreAngleFacts.

Import AngleScheme.

Lemma linspace_negative (start stop : R) (n : Z) :
  (n < 0)%Z -> linspace start stop (PyInt n) = Err ValueError.
Proof.
  intros Hn. unfold linspace. destruct (Z.ltb_spec n 0); [reflexivity | lia].
Qed.

(** Decide the string guards and step through the binds whose first
    computation is already a value, without unfolding anything else. *)
Ltac eval_guards :=
  unfold when, bind;
  repeat match goal with
         | |- context [String.eqb ?a ?b] =>
           let v := eval vm_compute in (String.eqb a b) in
           change (String.eqb a b) with v
         | |- context [Z.eqb ?a ?b] =>
           let v := eval vm_compute in (Z.eqb a b) in
           match v with
           | true => change (Z.eqb a b) with true
           | false => change (Z.eqb a b) with false
           end
         end;
  cbv beta match.

(** Mode [x] returns [n_tilt] angles that tilt about x only, and rejects a
    negative count. *)
Theorem x_scheme_tilts_about_x (draws : nat -> R) (n_tilt : Z)
        (alpha beta gamma : R) (dist_n2 : Z) (tilt2 : string) :
  ((0 <= n_tilt)%Z ->
   exists angles,
     generate_angles draws "x" n_tilt alpha beta gamma dist_n2 tilt2 = Ok angles /\
     List.length angles = Z.to_nat n_tilt /\
     Forall (fun a => snd (fst a) = 0 /\ snd a = 0) angles) /\
  ((n_tilt < 0)%Z ->
   generate_angles draws "x" n_tilt alpha beta gamma dist_n2 tilt2
   = Err ValueError).
Proof.
  split; intros Hn; unfold generate_angles; simpl when; unfold mode_x, x_series.
  - destruct (linspace_length (- alpha) alpha n_tilt Hn) as (l & -> & Hl).
    simpl bind. eexists. split; [reflexivity |].
    rewrite !app_nil_r, length_map. split; [exact Hl |].
    apply Forall_forall. intros a Ha. apply in_map_iff in Ha.
    destruct Ha as (x & <- & _). auto.
  - rewrite linspace_negative by exact Hn. reflexivity.
Qed.

(** Mode [dual] returns two series of [int(n_tilt/2)] angles each, so an odd
    [n_tilt] gives one angle fewer than asked for; the first series tilts
    about x only. *)
Theorem dual_scheme_halves (draws : nat -> R) (n_tilt : Z)
        (alpha beta gamma : R) (dist_n2 : Z) (tilt2 : string) :
  (0 <= n_tilt)%Z -> tilt2 = "beta"%string \/ tilt2 = "gamma"%string ->
  exists first second,
    generate_angles draws "dual" n_tilt alpha beta gamma dist_n2 tilt2
    = Ok (first ++ second) /\
    List.length first = Z.to_nat (Z.quot n_tilt 2) /\
    List.length second = Z.to_nat (Z.quot n_tilt 2) /\
    Forall (fun a => snd (fst a) = 0 /\ snd a = 0) first.
Proof.
  intros Hn Ht.
  assert (Hq : (0 <= Z.quot n_tilt 2)%Z) by (apply Z.quot_pos; lia).
  destruct (linspace_length (- alpha) alpha (Z.quot n_tilt 2) Hq) as (xs & Hx & Hxl).
  destruct (linspace_length (- beta) beta (Z.quot n_tilt 2) Hq) as (ys & Hy & Hyl).
  assert (Hfirst : Forall (fun a : R * R * R => snd (fst a) = 0 /\ snd a = 0)
                          (map (fun ax : R => (ax, 0, 0)) xs)).
  { apply Forall_forall. intros a Ha. apply in_map_iff in Ha.
    destruct Ha as (x & <- & _). auto. }
  unfold generate_angles. eval_guards.
  unfold mode_dual, int_div, x_series, y_series.
  destruct Ht as [-> | ->]; eval_guards; rewrite Hx; eval_guards.
  - rewrite Hy. eval_guards.
    exists (map (fun ax : R => (ax, 0, 0)) xs), (map (fun ay : R => (0, ay, 0)) ys).
    split; [simpl; now rewrite !app_nil_r |].
    rewrite !length_map. auto.
  - rewrite ?Hx. eval_guards.
    exists (map (fun ax : R => (ax, 0, 0)) xs),
           (map (fun ax : R => (ax, 0, capped_gamma gamma)) xs).
    split; [simpl; now rewrite !app_nil_r |].
    rewrite !length_map. auto.
Qed.

(** Mode [dist] cannot be used with [alpha = 90] (the count [n_tilt/dist_n2+1]
    is a float and [np.linspace] raises [TypeError]) nor with [dist_n2 = 0]
    ([ZeroDivisionError]). *)
Theorem dist_scheme_rejections (draws : nat -> R) (n_tilt : Z)
        (alpha beta gamma : R) (dist_n2 : Z) (tilt2 : string) :
  (dist_n2 = 0%Z ->
   generate_angles draws "dist" n_tilt alpha beta gamma dist_n2 tilt2
   = Err ZeroDivisionError) /\
  (alpha = 90 -> (0 <= n_tilt)%Z -> (0 < dist_n2)%Z ->
   generate_angles draws "dist" n_tilt alpha beta gamma dist_n2 tilt2
   = Err TypeError).
Proof.
  split.
  - intros ->. reflexivity.
  - intros -> Hn Hd.
    destruct (linspace_length (Ropp 90) 90 (Z.quot n_tilt dist_n2)) as (l & Hl & _).
    { apply Z.quot_pos; lia. }
    unfold generate_angles. eval_guards.
    unfold mode_dist, int_div, true_div.
    destruct (Z.eqb_spec dist_n2 0); [lia |]. eval_guards.
    rewrite Hl. eval_guards.
    destruct (Req_dec_T 90 90); [reflexivity | contradiction].
Qed.

Lemma rand_loop_bounds (draws : nat -> R) (alpha beta gamma : R) (tilt2 : string) :
  (forall k, 0 <= draws k <= 1) -> 0 <= alpha -> 0 <= beta -> 0 <= gamma ->
  tilt2 = "beta"%string \/ tilt2 = "gamma"%string ->
  forall n k,
    List.length (rand_loop draws alpha beta gamma tilt2 n k) = n /\
    Forall (fun a => Rabs (fst (fst a)) <= alpha /\
                     Rabs (snd (fst a)) <= beta /\ Rabs (snd a) <= gamma)
           (rand_loop draws alpha beta gamma tilt2 n k).
Proof.
  intros Hd Ha Hb Hg Ht. induction n as [| n IH]; intros k.
  - split; [reflexivity | constructor].
  - pose proof (Hd k) as Hk. pose proof (Hd (S k)) as Hk'.
    destruct Ht as [-> | ->]; simpl;
      destruct (IH (S (S k))) as (Hl & Hf);
      (split; [now rewrite Hl |]);
      (constructor; [| exact Hf]); simpl;
      rewrite Rabs_R0; repeat split; try lra; apply Rabs_le; nra.
Qed.

(** Mode [rand] returns [n_tilt] angles, each within the tilt limits, when
    the random draws lie in the unit interval. *)
Theorem rand_scheme_within_limits (draws : nat -> R) (n_tilt : Z)
        (alpha beta gamma : R) (dist_n2 : Z) (tilt2 : string) :
  (forall k, 0 <= draws k <= 1) -> 0 <= alpha -> 0 <= beta -> 0 <= gamma ->
  tilt2 = "beta"%string \/ tilt2 = "gamma"%string ->
  exists angles,
    generate_angles draws "rand" n_tilt alpha beta gamma dist_n2 tilt2
    = Ok angles /\
    List.length angles = Z.to_nat n_tilt /\
    Forall (fun a => Rabs (fst (fst a)) <= alpha /\
                     Rabs (snd (fst a)) <= beta /\ Rabs (snd a) <= gamma) angles.
Proof.
  intros Hd Ha Hb Hg Ht.
  unfold generate_angles; simpl when; simpl bind. unfold mode_rand. simpl bind.
  eexists. split; [reflexivity |]. rewrite app_nil_r.
  apply rand_loop_bounds; assumption.
Qed.

(** Mode [sync] returns a series followed by its mirror image: the same x
    angles with the secondary angle negated. *)
Theorem sync_scheme_mirrored (draws : nat -> R) (n_tilt : Z)
        (alpha beta gamma : R) (dist_n2 : Z) (tilt2 : string) :
  (0 <= n_tilt)%Z -> tilt2 = "beta"%string \/ tilt2 = "gamma"%string ->
  exists half,
    generate_angles draws "sync" n_tilt alpha beta gamma dist_n2 tilt2
    = Ok (half ++ map (fun a => (fst (fst a), - snd (fst a), - snd a)) half) /\
    List.length half = Z.to_nat (Z.quot n_tilt 2).
Proof.
  intros Hn Ht.
  assert (Hq : (0 <= Z.quot n_tilt 2)%Z) by (apply Z.quot_pos; lia).
  destruct (linspace_length (- alpha) alpha (Z.quot n_tilt 2) Hq) as (xs & Hx & Hxl).
  destruct (linspace_length (- beta) beta (Z.quot n_tilt 2) Hq) as (ys & Hy & Hyl).
  destruct (linspace_length (- gamma) gamma (Z.quot n_tilt 2) Hq) as (zs & Hz & Hzl).
  unfold generate_angles. eval_guards. unfold mode_sync, int_div.
  destruct Ht as [-> | ->]; eval_guards; rewrite Hx; eval_guards.
  - rewrite Hy. eval_guards.
    exists (map (fun p => (fst p, snd p, 0)) (combine xs ys)). split.
    + simpl. rewrite !app_nil_r, map_map. do 2 f_equal. apply map_ext.
      intros [x y]. simpl. now rewrite Ropp_0.
    + rewrite length_map, length_combine. lia.
  - rewrite Hz. eval_guards.
    exists (map (fun p => (fst p, 0, snd p)) (combine xs zs)). split.
    + simpl. rewrite !app_nil_r, map_map. do 2 f_equal. apply map_ext.
      intros [x z]. simpl. now rewrite Ropp_0.
    + rewrite length_map, length_combine. lia.
Qed.

End MoreAngleFacts.

Lemma axis_z_kept :
  In 0%nat
     (Arrays.kept_indices (3 / 4) 0
        (map (Arrays.weight_k 2)
             (Geometry.calculate_A_contributions Samples.axis_angles))).
Proof.
  apply (kept_indices_complete (3 / 4) _ 0%nat 0%nat).
  - rewrite axis_weights. simpl. lia.
  - rewrite axis_weights. simpl.
    destruct (Rlt_dec (3 / 4) (Rabs 1)) as [| Hn]; [reflexivity |].
    exfalso. apply Hn. rewrite Rabs_R1. lra.
Qed.

Lemma one_component_per_angle_witness :
  In 0%nat
     (Arrays.kept_indices (3 / 4) 0
        (map (Arrays.weight_k 2)
             (Geometry.calculate_A_contributions Samples.axis_angles))) /\
  2%nat = 2%nat.
Proof.
  split; [exact axis_z_kept |].
  apply (one_component_per_angle Samples.axis_angles (3 / 4) 2 2 0);
    [lra | lra | lia | lia | exact axis_z_kept | exact axis_z_kept].
Defined.

Lemma dual_scheme_halves_witness :
  exists first second,
    AngleScheme.generate_angles (fun _ => 0) "dual" 41 70 40 180 8 "gamma"
    = Ok (first ++ second) /\
    List.length first = Z.to_nat (Z.quot 41 2) /\
    List.length second = Z.to_nat (Z.quot 41 2) /\
    Forall (fun a => snd (fst a) = 0 /\ snd a = 0) first.
Proof.
  apply (dual_scheme_halves (fun _ => 0) 41 70 40 180 8 "gamma"); [lia | now right].
Defined.

Lemma rand_scheme_within_limits_witness :
  exists angles,
    AngleScheme.generate_angles (fun _ => 1 / 2) "rand" 40 70 40 180 8 "beta"
    = Ok angles /\
    List.length angles = Z.to_nat 40 /\
    Forall (fun a => Rabs (fst (fst a)) <= 70 /\
                     Rabs (snd (fst a)) <= 40 /\ Rabs (snd a) <= 180) angles.
Proof.
  apply (rand_scheme_within_limits (fun _ => 1 / 2) 40 70 40 180 8 "beta");
    [intros; lra | lra | lra | lra | now left].
Defined.

Lemma sync_scheme_mirrored_witness :
  exists half,
    AngleScheme.generate_angles (fun _ => 0) "sync" 40 70 40 180 8 "beta"
    = Ok (half ++ map (fun a => (fst (fst a), - snd (fst a), - snd a)) half) /\
    List.length half = Z.to_nat (Z.quot 40 2).
Proof.
  apply (sync_scheme_mirrored (fun _ => 0) 40 70 40 180 8 "beta"); [lia | now left].
Defined.

(** ** More on weighting and decontamination *)

Section MoreArrayFacts.

Import Arrays.
Context {T : Type} `{Scalar T}.

Lemma weight_loop_overrun (projs : array3 T) (ws : list T) :
  forall i, (i <= dim1 projs)%nat -> (dim1 projs < i + List.length ws)%nat ->
  weight_loop projs i ws = Err IndexError.
Proof.
  induction ws as [| w ws IH]; intros i Hi Hlen; simpl in Hlen.
  - lia.
  - simpl. unfold slice_tilt.
    destruct (Nat.ltb_spec i (dim1 projs)) as [Hlt | Hge].
    + simpl bind. rewrite IH by lia. reflexivity.
    + reflexivity.
Qed.

(** [weight_phases] rejects an empty weight list ([ValueError]) and a weight
    list longer than the tilt axis ([IndexError]); a shorter list is accepted
    and the slices beyond it are dropped from the result. *)
Theorem weight_phases_edges (projs : array3 T) (ws : list T) :
  (ws = [] -> weight_phases projs ws = Err ValueError) /\
  ((dim1 projs < List.length ws)%nat -> weight_phases projs ws = Err IndexError) /\
  (ws <> [] -> (List.length ws <= dim1 projs)%nat ->
   exists out,
     weight_phases projs ws = Ok out /\
     dim0 out = dim0 projs /\ dim1 out = List.length ws /\ dim2 out = dim2 projs /\
     forall r t c d, (t < List.length ws)%nat ->
       get3 out r t c = sc_mul (get3 projs r t c) (nth t ws d)).
Proof.
  split; [| split].
  - intros ->. reflexivity.
  - intros Hlen. unfold weight_phases.
    rewrite weight_loop_overrun by lia. reflexivity.
  - intros Hne Hlen.
    destruct (weight_loop_ok projs ws 0) as (ps & Hps & Hl & Hnth); [lia |].
    unfold weight_phases. rewrite Hps. simpl bind.
    destruct ps as [| p0 ps'].
    { destruct ws; [congruence | discriminate]. }
    eexists. split; [reflexivity |].
    assert (H0 : (0 < List.length ws)%nat) by (destruct ws; [congruence | simpl; lia]).
    destruct (Hnth 0%nat p0 sc_zero H0) as (Hr & Hc & _). simpl in Hr, Hc.
    simpl dim0. simpl dim1. simpl dim2. simpl get3.
    repeat split; try assumption.
    intros r t c d Ht.
    destruct (Hnth t p0 d Ht) as (_ & _ & Hg). now rewrite Hg.
Qed.

End MoreArrayFacts.

Section FirstStepFacts.

Import Arrays.

(** In the first major iteration the estimates are zero, and the
    decontamination step divides the phase by the constant and by each
    component's own weight; no other component enters. *)
Theorem first_step_divides (flux : R) (ws : list (R * R * R)) (phase : array3 R) :
  0 < flux -> ws <> [] -> List.length ws = dim1 phase ->
  exists nx ny nz,
    update_weighted_proj_data flux phase (zeros_like phase) (zeros_like phase)
      (zeros_like phase) ws = Ok (nx, ny, nz) /\
    forall r t c, (r < dim0 phase)%nat -> (t < dim1 phase)%nat ->
                  (c < dim2 phase)%nat ->
      (nth_weight 0 t ws <> 0 ->
       get3 nx r t c = get3 phase r t c / (phase_const flux * nth_weight 0 t ws)) /\
      (nth_weight 1 t ws <> 0 ->
       get3 ny r t c = get3 phase r t c / (phase_const flux * nth_weight 1 t ws)) /\
      (nth_weight 2 t ws <> 0 ->
       get3 nz r t c = get3 phase r t c / (phase_const flux * nth_weight 2 t ws)).
Proof.
  intros Hflux Hne Hlen.
  pose proof (phase_const_nonzero flux Hflux) as Hc.
  assert (Hz : same_shape phase (zeros_like phase)) by (repeat split).
  destruct (decontaminate_ok flux phase (zeros_like phase) (zeros_like phase)
              1 2 0 ws Hne Hlen Hz Hz) as (nx & Ex & _ & Gx).
  destruct (decontaminate_ok flux phase (zeros_like phase) (zeros_like phase)
              0 2 1 ws Hne Hlen Hz Hz) as (ny & Ey & _ & Gy).
  destruct (decontaminate_ok flux phase (zeros_like phase) (zeros_like phase)
              1 0 2 ws Hne Hlen Hz Hz) as (nz & Ez & _ & Gz).
  exists nx, ny, nz. split.
  { unfold update_weighted_proj_data. rewrite Ex, Ey, Ez. reflexivity. }
  intros r t c Hr Ht Hcc.
  rewrite (Gx r t c Hr Ht Hcc), (Gy r t c Hr Ht Hcc), (Gz r t c Hr Ht Hcc).
  cbn [sc_mul sc_sub sc_div sc_one sc_zero Scalar_R zeros_like get3].
  repeat split; intros Hw; field; auto.
Qed.

(** Turning a reconstruction round twice gives it back: the reorientation of
    [recon_step] undoes the one applied before forward projection. *)
Theorem reorient_involution (a : array3 R) :
  array3_eq (Reconstructor.reorient (Reconstructor.reorient a)) a.
Proof.
  repeat split.
  intros i j k Hi Hj Hk. simpl in Hi, Hj, Hk. simpl.
  f_equal. lia.
Qed.

End FirstStepFacts.

Lemma first_step_divides_witness :
  exists nx ny nz,
    Arrays.update_weighted_proj_data Samples.flux_quantum_r
      (Samples.unit_stack 1) (Arrays.zeros_like (Samples.unit_stack 1))
      (Arrays.zeros_like (Samples.unit_stack 1))
      (Arrays.zeros_like (Samples.unit_stack 1)) Samples.even_weights
    = Ok (nx, ny, nz) /\
    forall r t c, (r < 1)%nat -> (t < 1)%nat -> (c < 1)%nat ->
      (Arrays.nth_weight 0 t Samples.even_weights <> 0 ->
       Arrays.get3 nx r t c
       = 1 / (Arrays.phase_const Samples.flux_quantum_r
              * Arrays.nth_weight 0 t Samples.even_weights)) /\
      (Arrays.nth_weight 1 t Samples.even_weights <> 0 ->
       Arrays.get3 ny r t c
       = 1 / (Arrays.phase_const Samples.flux_quantum_r
              * Arrays.nth_weight 1 t Samples.even_weights)) /\
      (Arrays.nth_weight 2 t Samples.even_weights <> 0 ->
       Arrays.get3 nz r t c
       = 1 / (Arrays.phase_const Samples.flux_quantum_r
              * Arrays.nth_weight 2 t Samples.even_weights)).
Proof.
  apply (first_step_divides Samples.flux_quantum_r Samples.even_weights
           (Samples.unit_stack 1)).
  - unfold Samples.flux_quantum_r. lra.
  - discriminate.
  - reflexivity.
Defined.

(** ** More on the reconstruction loop *)

Section MoreReconstructorFacts.

Import Arrays Reconstructor DualAxis.

Variable backend_reconstruct :
  stack -> list (list R) -> string -> Z -> R -> Z -> result volume.
Variable backend_forward_project :
  volume -> volume -> volume -> list angle -> mesh_params ->
  result (stack * stack * stack).
Variable flux_quantum : R.

Lemma generate_vectors_shape (angles : list angle) :
  List.length (Geometry.generate_vectors angles) = List.length angles /\
  Forall (fun p => List.length p = 12%nat) (Geometry.generate_vectors angles).
Proof.
  unfold Geometry.generate_vectors. split; [apply length_map |].
  apply Forall_forall. intros p Hp. apply in_map_iff in Hp.
  destruct Hp as ([[ax ay] az] & <- & _). reflexivity.
Qed.

(** A [recon_step] call that returns has made exactly one solver call and one
    [astra.clear()] after it, and the solver was handed one twelve-entry
    projection vector per tilt slice, one slice per angle kept by the
    threshold. *)
Theorem recon_step_hands_matching_data (a_projs : stack) (ws : list R)
        (angles : list angle) (mesh : mesh_params) (thresh : R)
        (algorithm : string) (niter : Z) (weight : R) (callback_freq : Z)
        (tr tr' : list event) (v : volume) :
  recon_step backend_reconstruct a_projs ws angles mesh thresh algorithm niter
    weight callback_freq tr = (Ok v, tr') ->
  exists data vecs,
    tr' = tr ++ [CallReconStep ws thresh;
                 BackendReconstruct data vecs algorithm niter weight;
                 BackendClear] /\
    dim1 data = List.length vecs /\
    List.length vecs = List.length (kept_indices thresh 0 ws) /\
    (0 < List.length vecs)%nat /\
    Forall (fun p => List.length p = 12%nat) vecs.
Proof.
  destruct mesh as [[p1 [[p2_0 p2_1] p2_2]] [[nn_0 nn_1] nn_2]].
  unfold recon_step, bindM, emit, lift, generate_reconstruction, astra_clear, ret.
  destruct (py_div p2_0 nn_0) as [res |]; [| discriminate].
  destruct (threshold_loop a_projs angles thresh 0 ws) as [sel |] eqn:Hsel;
    [| discriminate].
  destruct (threshold_loop_kept _ _ _ _ _ _ Hsel) as (Hang & Hlen).
  destruct sel as [slices kept_angles]. simpl fst in *. simpl snd in *.
  destruct slices as [| s0 ss]; [discriminate |]. simpl transpose_102.
  unfold bindM, emit, lift.
  destruct (backend_reconstruct _ _ algorithm niter weight callback_freq)
    as [recon |]; [| discriminate].
  intros [= _ <-].
  do 2 eexists. split; [rewrite <- !app_assoc; reflexivity |].
  destruct (generate_vectors_shape kept_angles) as (Hvl & Hv12).
  assert (Hka : List.length kept_angles
                = List.length (kept_indices thresh 0 ws)).
  { rewrite <- (length_map Some kept_angles), Hang. apply length_map. }
  simpl dim1. rewrite Hvl, Hka. repeat split.
  - exact Hlen.
  - rewrite <- Hlen. simpl. lia.
  - exact Hv12.
Qed.

(** [astra.clear()] runs exactly when [recon_step] returns: a call that
    raises, whether before or inside the solver, releases nothing. *)
Theorem recon_step_clears_only_on_return (a_projs : stack) (ws : list R)
        (angles : list angle) (mesh : mesh_params) (thresh : R)
        (algorithm : string) (niter : Z) (weight : R) (callback_freq : Z)
        (tr : list event) :
  match recon_step backend_reconstruct a_projs ws angles mesh thresh algorithm
          niter weight callback_freq tr with
  | (Ok _, tr') => clear_calls tr' = S (clear_calls tr)
  | (Err _, tr') => clear_calls tr' = clear_calls tr
  end.
Proof.
  destruct mesh as [[p1 [[p2_0 p2_1] p2_2]] [[nn_0 nn_1] nn_2]].
  unfold clear_calls.
  unfold recon_step, bindM, emit, lift, generate_reconstruction, astra_clear, ret.
  destruct (py_div p2_0 nn_0) as [res |];
    [| rewrite filter_app, length_app; simpl; lia].
  destruct (threshold_loop a_projs angles thresh 0 ws) as [sel |];
    [| rewrite filter_app, length_app; simpl; lia].
  destruct (transpose_102 (fst sel)) as [a_thresh |];
    [| rewrite filter_app, length_app; simpl; lia].
  unfold bindM, emit, lift.
  destruct (backend_reconstruct a_thresh _ algorithm niter weight callback_freq)
    as [recon |]; rewrite !filter_app, !length_app; simpl; lia.
Qed.

Lemma nothing_kept_fails (a_projs : stack) (ws : list R) (angles : list angle)
      (mesh : mesh_params) (thresh : R) (algorithm : string) (niter : Z)
      (weight : R) (callback_freq : Z) (tr : list event) :
  (forall w, In w ws -> Rabs w <= thresh) ->
  exists e,
    recon_step backend_reconstruct a_projs ws angles mesh thresh algorithm niter
      weight callback_freq tr = (Err e, tr ++ [CallReconStep ws thresh]).
Proof.
  intros Hall.
  destruct mesh as [[p1 [[p2_0 p2_1] p2_2]] [[nn_0 nn_1] nn_2]].
  unfold recon_step, bindM, emit, lift, py_div.
  destruct (Req_dec_T nn_0 0); [eexists; reflexivity |].
  rewrite (threshold_loop_none a_projs angles thresh ws).
  - eexists. reflexivity.
  - intros w Hw. simpl. specialize (Hall w Hw).
    destruct (Rlt_dec thresh (Rabs w)); [lra | reflexivity].
Qed.

Lemma column_within_unit (angles : list angle) (k : nat) (w : R) :
  In w (map (weight_k k) (Geometry.calculate_A_contributions angles)) ->
  Rabs w <= 1.
Proof.
  intros Hw. apply in_map_iff in Hw. destruct Hw as (t & <- & Ht).
  induction angles as [| [[ax ay] az] angles IH]; [destruct Ht |].
  rewrite contributions_cons in Ht. apply in_app_or in Ht.
  destruct Ht as [Ht | Ht]; [| exact (IH Ht)].
  pose proof (triple_within_unit ax ay az) as Hall.
  rewrite Forall_forall in Hall. destruct (Hall t Ht) as (H0 & H1 & H2).
  destruct t as [[wx wy] wz]. destruct k as [| [| k]]; assumption.
Qed.

(** With [tmax >= 1] the algorithm never reaches the backend: whatever the
    data, the run raises and no solver or projector call is made. *)
Theorem threshold_one_never_reconstructs (phase_projs : stack)
        (angles : list angle) (mesh : mesh_params) (n_pad : nat)
        (n_full_iter n_step_iter : Z) (algorithm : string) (weight tmin tmax : R)
        (callback : bool) :
  1 <= tmax ->
  exists e tr,
    iterative_update_algorithm backend_reconstruct backend_forward_project
      flux_quantum phase_projs angles mesh n_pad n_full_iter n_step_iter
      algorithm weight (tmin, tmax) callback [] = (Err e, tr) /\
    backend_calls tr = [].
Proof.
  intros Ht. unfold iterative_update_algorithm.
  unfold bindM at 1. unfold lift at 1.
  destruct (AngleScheme.linspace tmin tmax (AngleScheme.PyInt (n_full_iter - 1)))
    as [possible_ts |]; [| do 2 eexists; split; reflexivity].
  unfold bindM at 1. unfold lift at 1.
  destruct (update_weighted_proj_data flux_quantum phase_projs _ _ _ _)
    as [[[sx sy] sz] |]; [| do 2 eexists; split; reflexivity].
  unfold bindM at 1. unfold recon_xyz.
  unfold bindM at 1. unfold lift at 1.
  destruct (ws_column 0 (Geometry.calculate_A_contributions angles))
    as [col |] eqn:Hcol; [| do 2 eexists; split; reflexivity].
  assert (Ecol : col = map (weight_k 0) (Geometry.calculate_A_contributions angles)).
  { unfold ws_column in Hcol.
    destruct (Geometry.calculate_A_contributions angles); [discriminate |].
    now injection Hcol as <-. }
  unfold bindM at 1.
  destruct (nothing_kept_fails sx col angles mesh tmax algorithm n_step_iter
              weight (if callback then 1%Z else 0%Z) []) as (e & He).
  { intros w Hw. rewrite Ecol in Hw. apply column_within_unit in Hw. lra. }
  rewrite He. do 2 eexists. split; reflexivity.
Qed.

(** The algorithm rejects a non-positive number of major iterations, and an
    empty angle list, before any call is made. *)
Theorem run_rejected_up_front (phase_projs : stack) (angles : list angle)
        (mesh : mesh_params) (n_pad : nat) (n_full_iter n_step_iter : Z)
        (algorithm : string) (weight tmin tmax : R) (callback : bool)
        (tr : list event) :
  ((n_full_iter <= 0)%Z ->
   iterative_update_algorithm backend_reconstruct backend_forward_project
     flux_quantum phase_projs angles mesh n_pad n_full_iter n_step_iter
     algorithm weight (tmin, tmax) callback tr = (Err ValueError, tr)) /\
  ((1 <= n_full_iter)%Z -> angles = [] ->
   iterative_update_algorithm backend_reconstruct backend_forward_project
     flux_quantum phase_projs angles mesh n_pad n_full_iter n_step_iter
     algorithm weight (tmin, tmax) callback tr = (Err IndexError, tr)).
Proof.
  split.
  - intros Hn. unfold iterative_update_algorithm, bindM, lift.
    rewrite linspace_negative by lia. reflexivity.
  - intros Hn ->. unfold iterative_update_algorithm.
    unfold bindM at 1. unfold lift at 1.
    destruct (linspace_length tmin tmax (n_full_iter - 1)) as (l & -> & _); [lia |].
    reflexivity.
Qed.

End MoreReconstructorFacts.

(** ** Counting backend calls *)

Section CallCounts.

Import Arrays Reconstructor DualAxis.

Variable backend_reconstruct :
  stack -> list (list R) -> string -> Z -> R -> Z -> result volume.
Variable backend_forward_project :
  volume -> volume -> volume -> list angle -> mesh_params ->
  result (stack * stack * stack).
Variable flux_quantum : R.






(** [dual_axis_reconstruction] rejects a zero voxel count along x or y before
    the solver runs; a call that returns has run the solver on the x series
    and then on the y series, clearing after each, with one projection vector
    per angle. *)
Theorem dual_axis_reconstruction_trace (xdata ydata : stack)
        (axs ays : list angle) (p1 : R * R * R) (p2_0 p2_1 p2_2 nn_0 nn_1 nn_2 : R)
        (algorithm : string) (niter : Z) (weight : R) (callback_freq : Z)
        (tr : list event) :
  let run := dual_axis_reconstruction backend_reconstruct xdata ydata axs ays
               (p1, (p2_0, p2_1, p2_2), (nn_0, nn_1, nn_2)) algorithm niter
               weight callback_freq in
  (nn_0 = 0 \/ nn_1 = 0 -> run tr = (Err ZeroDivisionError, tr)) /\
  (forall out tr',
      run tr = (Ok out, tr') ->
      tr' = tr ++ [BackendReconstruct xdata (Geometry.generate_vectors axs)
                     algorithm niter weight;
                   BackendClear;
                   BackendReconstruct ydata (Geometry.generate_vectors ays)
                     algorithm niter weight;
                   BackendClear] /\
      List.length (Geometry.generate_vectors axs) = List.length axs /\
      List.length (Geometry.generate_vectors ays) = List.length ays).
Proof.
  intros run. subst run. unfold dual_axis_reconstruction.
  unfold bindM, lift, generate_reconstruction, astra_clear, emit, ret, py_div.
  split.
  - intros [-> | ->].
    + destruct (Req_dec_T 0 0); [reflexivity | contradiction].
    + destruct (Req_dec_T nn_0 0); [reflexivity |].
      destruct (Req_dec_T 0 0); [reflexivity | contradiction].
  - intros out tr'.
    destruct (Req_dec_T nn_0 0); [discriminate |].
    destruct (Req_dec_T nn_1 0); [discriminate |].
    unfold bindM, lift, emit.
    destruct (backend_reconstruct xdata _ algorithm niter weight callback_freq)
      as [rx |]; [| discriminate].
    destruct (backend_reconstruct ydata _ algorithm niter weight callback_freq)
      as [ry |]; [| discriminate].
    intros [= _ <-]. split; [now rewrite <- !app_assoc |].
    unfold Geometry.generate_vectors. now rewrite !length_map.
Qed.

End CallCounts.


Lemma threshold_one_never_reconstructs_witness :
  exists e tr,
    Reconstructor.iterative_update_algorithm Samples.still_solver
      Samples.blank_projector Samples.flux_quantum_r Samples.cube_phase
      Samples.axis_angles Samples.cube_mesh 1 3 10 "SIRT3D_CUDA" (1 / 1000)
      (1 / 100, 1) false [] = (Err e, tr) /\
    Reconstructor.backend_calls tr = [].
Proof.
  apply (threshold_one_never_reconstructs Samples.still_solver
           Samples.blank_projector Samples.flux_quantum_r Samples.cube_phase
           Samples.axis_angles Samples.cube_mesh 1 3 10 "SIRT3D_CUDA" (1 / 1000)
           (1 / 100) 1 false).
  lra.
Defined.

Lemma sample_step_returns :
  exists v tr',
    Reconstructor.recon_step Samples.still_solver Samples.cube_phase
      (map (Arrays.weight_k 2)
           (Geometry.calculate_A_contributions Samples.axis_angles))
      Samples.axis_angles Samples.cube_mesh (7 / 10) "SIRT3D_CUDA" 10
      (1 / 1000) 0 [] = (Ok v, tr').
Proof.
  apply (recon_step_ok Samples.still_solver Samples.cube_phase
           Samples.axis_angles (0, 0, 0) 3 3 3 3 3 3 "SIRT3D_CUDA" 10
           (1 / 1000) 0).
  - intros. eexists. reflexivity.
  - lra.
  - reflexivity.
  - lia.
  - apply axis_angles_leave. lra.
  - repeat split.
Qed.

Lemma recon_step_hands_matching_data_witness :
  exists v tr' data vecs,
    Reconstructor.recon_step Samples.still_solver Samples.cube_phase
      (map (Arrays.weight_k 2)
           (Geometry.calculate_A_contributions Samples.axis_angles))
      Samples.axis_angles Samples.cube_mesh (7 / 10) "SIRT3D_CUDA" 10
      (1 / 1000) 0 [] = (Ok v, tr') /\
    tr' = [] ++ [Reconstructor.CallReconStep
                   (map (Arrays.weight_k 2)
                        (Geometry.calculate_A_contributions Samples.axis_angles))
                   (7 / 10);
                 Reconstructor.BackendReconstruct data vecs "SIRT3D_CUDA" 10
                   (1 / 1000);
                 Reconstructor.BackendClear] /\
    Arrays.dim1 data = List.length vecs /\
    List.length vecs
    = List.length
        (Arrays.kept_indices (7 / 10) 0
           (map (Arrays.weight_k 2)
                (Geometry.calculate_A_contributions Samples.axis_angles))) /\
    (0 < List.length vecs)%nat /\
    Forall (fun p => List.length p = 12%nat) vecs.
Proof.
  destruct sample_step_returns as (v & tr' & Hrun).
  destruct (recon_step_hands_matching_data Samples.still_solver
              Samples.cube_phase _ Samples.axis_angles Samples.cube_mesh
              (7 / 10) "SIRT3D_CUDA" 10 (1 / 1000) 0 [] tr' v Hrun)
    as (data & vecs & Htr).
  exists v, tr', data, vecs. split; [exact Hrun | exact Htr].
Defined.

(** ** Angle wrapping, normalisation, projection and correlation *)

Section UtilityFacts.

Import Arrays Utilities.

Lemma wrap_once_range (v : R) :
  - (3 * PI) <= v <= 3 * PI ->
  - PI <= wrap_once v <= PI /\
  (wrap_once v = v \/ wrap_once v = v - 2 * PI \/ wrap_once v = v + 2 * PI).
Proof.
  intros Hv. pose proof PI_RGT_0 as Hpi. unfold wrap_once.
  destruct (Rlt_dec v (- PI)); destruct (Rlt_dec PI v); split; auto; lra.
Qed.

(** Shifting angles that lie in [-pi, pi] by at most a full turn leaves them
    in [-pi, pi], each moved by the shift up to a full turn, and keeps the
    shape of the array. *)
Theorem shift_angles_stays_in_range (vals : list (list R)) (a : R) :
  Rabs a <= 2 * PI ->
  Forall (Forall (fun v => - PI <= v <= PI)) vals ->
  Forall (Forall (fun v => - PI <= v <= PI)) (shift_angles vals (Some a)) /\
  Forall2 (Forall2 (fun v v' => v' = v + a \/ v' = v + a - 2 * PI
                                \/ v' = v + a + 2 * PI))
          vals (shift_angles vals (Some a)).
Proof.
  intros Ha Hall.
  assert (Hb : - (2 * PI) <= a <= 2 * PI)
    by (unfold Rabs in Ha; destruct (Rcase_abs a); lra).
  clear Ha. unfold shift_angles.
  induction Hall as [| row vals Hrow _ IH]; simpl.
  - split; constructor.
  - destruct IH as (IH1 & IH2).
    assert (Hr : Forall (fun v => - PI <= v <= PI)
                        (map wrap_once (map (fun v => v + a) row)) /\
                 Forall2 (fun v v' => v' = v + a \/ v' = v + a - 2 * PI
                                      \/ v' = v + a + 2 * PI)
                         row (map wrap_once (map (fun v => v + a) row))).
    { induction Hrow as [| v row Hv _ IHr]; simpl.
      - split; constructor.
      - destruct IHr as (R1 & R2).
        destruct (wrap_once_range (v + a)) as (Hin & Hby); [lra |].
        split; constructor; assumption. }
    destruct Hr as (Hr1 & Hr2). split; constructor; assumption.
Qed.





(** The result of [normalize] is shorter than a unit vector as soon as two
    components are non-zero: it is normalised for the 1-norm, not for the
    Euclidean length. *)
Theorem normalize_not_unit_length (eps a b c : R) :
  a <> 0 -> b <> 0 ->
  Geometry.dot1 (normalize eps [a; b; c]) (normalize eps [a; b; c]) < 1.
Proof.
  intros Ha Hb.
  pose proof (Rabs_pos_lt a Ha) as Pa. pose proof (Rabs_pos_lt b Hb) as Pb.
  pose proof (Rabs_pos c) as Pc.
  assert (Ea : Rabs a * Rabs a = a * a)
    by (rewrite <- Rabs_mult; apply Rabs_pos_eq; nra).
  assert (Eb : Rabs b * Rabs b = b * b)
    by (rewrite <- Rabs_mult; apply Rabs_pos_eq; nra).
  assert (Ec : Rabs c * Rabs c = c * c)
    by (rewrite <- Rabs_mult; apply Rabs_pos_eq; nra).
  unfold normalize, l1_norm. simpl fold_right.
  set (n := Rabs a + (Rabs b + (Rabs c + 0))).
  assert (Hn : 0 < n) by (unfold n; lra).
  destruct (Req_dec_T n 0); [lra |].
  cbv [Geometry.dot1 map combine fold_right fst snd].
  assert (Hsq : a * a + b * b + c * c < n * n) by (unfold n; nra).
  replace (a / n * (a / n) + (b / n * (b / n) + (c / n * (c / n) + 0)))
    with ((a * a + b * b + c * c) / (n * n)) by (field; lra).
  apply (Rmult_lt_reg_r (n * n)); [nra |].
  unfold Rdiv. rewrite Rmult_assoc, Rinv_l by nra. lra.
Qed.

Lemma sum_constant (x : R) (a n : nat) :
  fold_right Rplus 0 (map (fun _ => x) (seq a n)) = INR n * x.
Proof.
  revert a. induction n as [| n IH]; intros a.
  - simpl. ring.
  - simpl seq. simpl map. simpl fold_right. rewrite IH, S_INR. ring.
Qed.

(** Without mesh parameters [project_along_z] is the plain sum along z, and
    an array of depth zero is rejected with [ZeroDivisionError]. *)
Theorem project_along_z_default (U : array3 R) :
  (dim2 U = 0%nat -> project_along_z U None = Err ZeroDivisionError) /\
  ((0 < dim2 U)%nat ->
   exists p,
     project_along_z U None = Ok p /\
     rows2 p = dim0 U /\ cols2 p = dim1 U /\
     forall i j,
       get2 p i j = fold_right Rplus 0 (map (fun k => get3 U i j k)
                                            (seq 0 (dim2 U)))).
Proof.
  unfold project_along_z, Reconstructor.py_div. split.
  - intros ->. simpl INR. destruct (Req_dec_T 0 0); [reflexivity | contradiction].
  - intros Hpos.
    assert (Hd : INR (dim2 U) <> 0) by (apply not_0_INR; lia).
    destruct (Req_dec_T (INR (dim2 U)) 0); [contradiction |].
    simpl bind. eexists. split; [reflexivity |]. repeat split.
    intros i j. simpl get2. unfold sum_along_z. f_equal.
    apply map_ext. intros k. field. assumption.
Qed.

(** A uniform volume whose depth matches the mesh's voxel count projects to
    its value times the physical thickness. *)
Theorem project_along_z_uniform (U : array3 R) (c : R)
        (p1 : R * R * R) (p2_0 p2_1 p2_2 n_0 n_1 : R) :
  (0 < dim2 U)%nat ->
  (forall i j k, (k < dim2 U)%nat -> get3 U i j k = c) ->
  exists p,
    project_along_z U (Some (p1, (p2_0, p2_1, p2_2), (n_0, n_1, INR (dim2 U))))
    = Ok p /\
    forall i j, get2 p i j = c * p2_2.
Proof.
  intros Hpos Hc. unfold project_along_z, Reconstructor.py_div.
  assert (Hd : INR (dim2 U) <> 0) by (apply not_0_INR; lia).
  destruct (Req_dec_T (INR (dim2 U)) 0); [contradiction |].
  simpl bind. eexists. split; [reflexivity |].
  intros i j. simpl get2. unfold sum_along_z.
  rewrite (map_ext_in _ (fun _ => c * (p2_2 / INR (dim2 U)))).
  - rewrite sum_constant. field. assumption.
  - intros k Hk. apply in_seq in Hk. rewrite Hc by lia. reflexivity.
Qed.

Lemma flat_map_ext_in {A B : Type} (f g : A -> list B) (l : list A) :
  (forall a, In a l -> f a = g a) -> flat_map f l = flat_map g l.
Proof.
  induction l as [| a l IH]; intros Hext; simpl.
  - reflexivity.
  - rewrite (Hext a) by (now left).
    rewrite IH by (intros x Hx; apply Hext; now right). reflexivity.
Qed.

Lemma sum3_ext (a b : array3 R) :
  array3_eq a b -> sum3 a = sum3 b.
Proof.
  intros (H0 & H1 & H2 & He). unfold sum3, entries. f_equal.
  rewrite <- H0, <- H1, <- H2.
  apply flat_map_ext_in. intros i Hi. apply in_seq in Hi.
  apply flat_map_ext_in. intros j Hj. apply in_seq in Hj.
  apply map_ext_in. intros k Hk. apply in_seq in Hk.
  apply He; lia.
Qed.

(** Where the spread [N*sum(A^2) - sum(A)^2] is positive, the correlation of
    an array with itself is 1. *)
Theorem CC_of_itself (A : array3 R) :
  0 < INR (dim0 A * dim1 A * dim2 A) * sum3 (square3 A) - (sum3 A) ^ 2 ->
  CC A A = Ok 1.
Proof.
  intros Hpos. unfold CC, mul3. rewrite !bdim_same. simpl bind.
  set (N := INR (dim0 A * dim1 A * dim2 A)) in *.
  match goal with
  | |- context [sum3 ?m] =>
    match m with
    | mk_array3 _ _ _ _ => assert (Hsq : sum3 m = sum3 (square3 A))
    end
  end.
  { apply sum3_ext. repeat split.
    intros i j k Hi Hj Hk. simpl in Hi, Hj, Hk. simpl.
    rewrite !bidx_in_range by assumption. ring. }
  rewrite Hsq. set (x := N * sum3 (square3 A) - sum3 A ^ 2) in *.
  replace (N * sum3 (square3 A) - sum3 A * sum3 A) with x by (unfold x; ring).
  replace (N * sum3 (square3 A) - sum3 A * (sum3 A * 1)) with x
    by (unfold x; ring).
  rewrite sqrt_square by lra. f_equal. field. lra.
Qed.

End UtilityFacts.

Lemma shift_angles_stays_in_range_witness :
  Forall (Forall (fun v => - PI <= v <= PI))
         (Utilities.shift_angles [[0; PI]; [- PI; PI / 2]] (Some PI)) /\
  Forall2 (Forall2 (fun v v' => v' = v + PI \/ v' = v + PI - 2 * PI
                                \/ v' = v + PI + 2 * PI))
          [[0; PI]; [- PI; PI / 2]]
          (Utilities.shift_angles [[0; PI]; [- PI; PI / 2]] (Some PI)).
Proof.
  pose proof PI_RGT_0 as Hpi.
  apply (shift_angles_stays_in_range [[0; PI]; [- PI; PI / 2]] PI).
  - rewrite Rabs_pos_eq; lra.
  - repeat constructor; lra.
Defined.

Lemma normalize_not_unit_length_witness :
  Geometry.dot1 (Utilities.normalize (1 / 1000) [3; 4; 0])
                (Utilities.normalize (1 / 1000) [3; 4; 0]) < 1.
Proof.
  apply (normalize_not_unit_length (1 / 1000) 3 4 0); lra.
Defined.

Lemma project_along_z_uniform_witness :
  exists p,
    Utilities.project_along_z (Samples.cube_phase)
      (Some ((0, 0, 0), (3, 3, 12), (3, 3, INR (Arrays.dim2 Samples.cube_phase))))
    = Ok p /\
    forall i j, Arrays.get2 p i j = 1 * 12.
Proof.
  apply (project_along_z_uniform Samples.cube_phase 1 (0, 0, 0) 3 3 12 3 3).
  - simpl. lia.
  - reflexivity.
Defined.

Lemma CC_of_itself_witness :
  Utilities.CC (Arrays.mk_array3 1 1 2 (fun _ _ k => INR k))
               (Arrays.mk_array3 1 1 2 (fun _ _ k => INR k)) = Ok 1.
Proof.
  apply (CC_of_itself (Arrays.mk_array3 1 1 2 (fun _ _ k => INR k))).
  unfold Utilities.sum3, Utilities.entries, Utilities.square3. simpl. lra.
Defined.
